(** * Cosmic hand-gesture control: the store, the interaction loop,
      the wave detector and the particle sweep

    A shallow embedding of [src/store.ts], of the per-frame callback of
    [InteractionManager] in [src/components/Scene3D.tsx], of the age check of
    [Particles] and of the gesture resolution of [HandController].

    Conventions.
    - A JavaScript [number] is an exact rational ([Q]): rounding, NaN and the
      infinities are outside the model.  [Date.now()] is an integer count of
      milliseconds ([Z]).
    - [string | null] is [option string]; JavaScript truthiness of such a
      value is [truthy] (null and the empty string are falsy).
    - The store is a record; every zustand action is a function on it.  The
      components run in a small state monad over a [World] that holds the
      store, the React refs, the number of calls made so far to
      [Math.random] and [Date.now], and the trace of store actions called.
    - Library code that the repository calls but does not contain
      ([Math.random], [Date.now], [Number.prototype.toString], [Math.hypot],
      [Math.atan2], the three.js ray) is a parameter. *)

From Stdlib Require Import List String Ascii Bool Arith ZArith QArith Qabs Qround Qminmax Qpower Lia Lqa.
From Stdlib Require Import DecimalString.
Import ListNotations.

Local Open Scope string_scope.
Local Open Scope Q_scope.

(** ** Data model ([src/store.ts]) *)

Inductive GestureType : Type :=
| NONE | OPEN_PALM | PINCH | FIST | THUMBS_UP | WAVE | POINTING_UP.

Definition gesture_eqb (a b : GestureType) : bool :=
  match a, b with
  | NONE, NONE | OPEN_PALM, OPEN_PALM | PINCH, PINCH | FIST, FIST
  | THUMBS_UP, THUMBS_UP | WAVE, WAVE | POINTING_UP, POINTING_UP => true
  | _, _ => false
  end.

Definition Vec3 : Type := (Q * Q * Q)%type.

Definition vx (v : Vec3) : Q := fst (fst v).
Definition vy (v : Vec3) : Q := snd (fst v).
Definition vz (v : Vec3) : Q := snd v.

Module BlockData.
Record t : Type := mk
  { id : string;
    position : Vec3;
    rotation : Vec3;
    color : string;
    scale : Vec3 }.
End BlockData.

Module ParticleData.
Record t : Type := mk
  { id : string;
    position : Vec3;
    color : string;
    createdAt : Z }.
End ParticleData.

Record AppState : Type := mkAppState
  { handPresent : bool;
    cursorPosition : Q * Q;
    gesture : GestureType;
    rotation : Q;
    blocks : list BlockData.t;
    particles : list ParticleData.t;
    selectedBlockId : option string;
    grabbedBlockId : option string;
    cameraPan : Q }.

(** [a === b] on [string | null]. *)
Definition id_eqb (a b : option string) : bool :=
  match a, b with
  | None, None => true
  | Some x, Some y => String.eqb x y
  | _, _ => false
  end.

(** Truthiness of a [string | null]: [if (currentlySelected && ...)]. *)
Definition truthy (a : option string) : bool :=
  match a with
  | None => false
  | Some x => negb (String.eqb x "")
  end.

(** ** Store actions: what each [set] call does to the state *)

Definition setHandState (present : bool) (x y : Q) (g : GestureType) (r : Q)
    (s : AppState) : AppState :=
  {| handPresent := present; cursorPosition := (x, y); gesture := g;
     rotation := r;
     blocks := blocks s; particles := particles s;
     selectedBlockId := selectedBlockId s;
     grabbedBlockId := grabbedBlockId s; cameraPan := cameraPan s |}.

Definition addBlock (b : BlockData.t) (s : AppState) : AppState :=
  {| handPresent := handPresent s; cursorPosition := cursorPosition s;
     gesture := gesture s; rotation := rotation s;
     blocks := blocks s ++ [b];
     particles := particles s;
     selectedBlockId := selectedBlockId s;
     grabbedBlockId := grabbedBlockId s; cameraPan := cameraPan s |}.

Definition removeBlock (i : string) (s : AppState) : AppState :=
  {| handPresent := handPresent s; cursorPosition := cursorPosition s;
     gesture := gesture s; rotation := rotation s;
     blocks := filter (fun b => negb (String.eqb (BlockData.id b) i)) (blocks s);
     particles := particles s;
     selectedBlockId :=
       if id_eqb (selectedBlockId s) (Some i) then None else selectedBlockId s;
     grabbedBlockId :=
       if id_eqb (grabbedBlockId s) (Some i) then None else grabbedBlockId s;
     cameraPan := cameraPan s |}.

(** [rotation || b.rotation]: an absent third argument keeps the rotation. *)
Definition updateBlockPosition (i : string) (pos : Vec3) (rot : option Vec3)
    (s : AppState) : AppState :=
  {| handPresent := handPresent s; cursorPosition := cursorPosition s;
     gesture := gesture s; rotation := rotation s;
     blocks :=
       map (fun b =>
              if String.eqb (BlockData.id b) i
              then BlockData.mk (BlockData.id b) pos
                     (match rot with Some r => r | None => BlockData.rotation b end)
                     (BlockData.color b) (BlockData.scale b)
              else b) (blocks s);
     particles := particles s;
     selectedBlockId := selectedBlockId s;
     grabbedBlockId := grabbedBlockId s; cameraPan := cameraPan s |}.

Definition setSelectedBlock (i : option string) (s : AppState) : AppState :=
  {| handPresent := handPresent s; cursorPosition := cursorPosition s;
     gesture := gesture s; rotation := rotation s;
     blocks := blocks s; particles := particles s;
     selectedBlockId := i;
     grabbedBlockId := grabbedBlockId s; cameraPan := cameraPan s |}.

Definition setGrabbedBlock (i : option string) (s : AppState) : AppState :=
  {| handPresent := handPresent s; cursorPosition := cursorPosition s;
     gesture := gesture s; rotation := rotation s;
     blocks := blocks s; particles := particles s;
     selectedBlockId := selectedBlockId s;
     grabbedBlockId := i; cameraPan := cameraPan s |}.

(** The [set] at the end of [triggerExplosion]. *)
Definition appendParticles (ps : list ParticleData.t) (s : AppState) : AppState :=
  {| handPresent := handPresent s; cursorPosition := cursorPosition s;
     gesture := gesture s; rotation := rotation s;
     blocks := blocks s;
     particles := particles s ++ ps;
     selectedBlockId := selectedBlockId s;
     grabbedBlockId := grabbedBlockId s; cameraPan := cameraPan s |}.

Definition clearParticles (i : string) (s : AppState) : AppState :=
  {| handPresent := handPresent s; cursorPosition := cursorPosition s;
     gesture := gesture s; rotation := rotation s;
     blocks := blocks s;
     particles :=
       filter (fun p => negb (String.eqb (ParticleData.id p) i)) (particles s);
     selectedBlockId := selectedBlockId s;
     grabbedBlockId := grabbedBlockId s; cameraPan := cameraPan s |}.

Definition panCamera (delta : Q) (s : AppState) : AppState :=
  {| handPresent := handPresent s; cursorPosition := cursorPosition s;
     gesture := gesture s; rotation := rotation s;
     blocks := blocks s; particles := particles s;
     selectedBlockId := selectedBlockId s;
     grabbedBlockId := grabbedBlockId s;
     cameraPan := cameraPan s + delta |}.

(** ** The JavaScript environment

    [mathRandom k] is what the [k]-th call of [Math.random()] returns and
    [dateNow k] what the [k]-th call of [Date.now()] returns, counted from the
    start of the program; the others are pure library functions. *)

Record JSEnv : Type := mkJSEnv
  { mathRandom : nat -> Q;
    dateNow : nat -> Z;
    toString36 : Q -> string;
    mathHypot : Q -> Q -> Q;
    mathAtan2 : Q -> Q -> Q;
    mathPI : Q }.

(** ** The world the components run in *)

Inductive Action : Type :=
| SetHandState (present : bool) (x y : Q) (g : GestureType) (r : Q)
| AddBlock (b : BlockData.t)
| RemoveBlock (i : string)
| UpdateBlockPosition (i : string) (pos : Vec3) (rot : option Vec3)
| SetSelectedBlock (i : option string)
| SetGrabbedBlock (i : option string)
| TriggerExplosion (pos : Vec3) (col : string)
| ClearParticles (i : string)
| PanCamera (delta : Q).

Record World : Type := mkWorld
  { store : AppState;
    (* refs of InteractionManager *)
    prevGesture : GestureType;
    prevSelectedId : option string;
    (* refs of HandController *)
    waveHistory : list Q;
    lastWaveX : Q;
    (* calls made so far *)
    randomCalls : nat;
    clockCalls : nat;
    (* store actions called so far, oldest first *)
    trace : list Action }.

Definition M (A : Type) : Type := World -> A * World.

Definition ret {A : Type} (a : A) : M A := fun w => (a, w).

Definition bind {A B : Type} (m : M A) (k : A -> M B) : M B :=
  fun w => let (a, w') := m w in k a w'.

Declare Scope js_scope.
Delimit Scope js_scope with js.
Notation "x <- c1 ;; c2" := (bind c1 (fun x => c2))
  (at level 61, c1 at next level, right associativity) : js_scope.
Notation "c1 ;; c2" := (bind c1 (fun _ => c2))
  (at level 61, right associativity) : js_scope.

Definition when (b : bool) (m : M unit) : M unit :=
  if b then m else ret tt.

(** [useStore.getState()] *)
Definition getState : M AppState := fun w => (store w, w).

(** zustand's [set(fn)] *)
Definition set (f : AppState -> AppState) : M unit :=
  fun w =>
    (tt, mkWorld (f (store w)) (prevGesture w) (prevSelectedId w)
           (waveHistory w) (lastWaveX w) (randomCalls w) (clockCalls w)
           (trace w)).

Definition record (a : Action) : M unit :=
  fun w =>
    (tt, mkWorld (store w) (prevGesture w) (prevSelectedId w)
           (waveHistory w) (lastWaveX w) (randomCalls w) (clockCalls w)
           (trace w ++ [a])).

Definition setRefs (g : GestureType) (sel : option string) : M unit :=
  fun w =>
    (tt, mkWorld (store w) g sel
           (waveHistory w) (lastWaveX w) (randomCalls w) (clockCalls w)
           (trace w)).

Definition getPrevGesture : M GestureType := fun w => (prevGesture w, w).

Definition getWaveHistory : M (list Q) := fun w => (waveHistory w, w).

Definition setWaveHistory (h : list Q) : M unit :=
  fun w =>
    (tt, mkWorld (store w) (prevGesture w) (prevSelectedId w)
           h (lastWaveX w) (randomCalls w) (clockCalls w) (trace w)).

Definition getLastWaveX : M Q := fun w => (lastWaveX w, w).

Definition setLastWaveX (x : Q) : M unit :=
  fun w =>
    (tt, mkWorld (store w) (prevGesture w) (prevSelectedId w)
           (waveHistory w) x (randomCalls w) (clockCalls w) (trace w)).

Section Program.

Variable env : JSEnv.

Local Open Scope js_scope.

(** [Math.random()] *)
Definition random : M Q :=
  fun w =>
    (mathRandom env (randomCalls w),
     mkWorld (store w) (prevGesture w) (prevSelectedId w)
       (waveHistory w) (lastWaveX w) (S (randomCalls w)) (clockCalls w)
       (trace w)).

(** [Date.now()] *)
Definition now : M Z :=
  fun w =>
    (dateNow env (clockCalls w),
     mkWorld (store w) (prevGesture w) (prevSelectedId w)
       (waveHistory w) (lastWaveX w) (randomCalls w) (S (clockCalls w))
       (trace w)).

(** The loop of [triggerExplosion]: [n] iterations still to run. *)
Fixpoint pushParticles (n : nat) (position : Vec3) (color : string)
    (newParticles : list ParticleData.t) : M (list ParticleData.t) :=
  match n with
  | O => ret newParticles
  | S n' =>
      r <- random ;;
      jx <- random ;;
      jy <- random ;;
      jz <- random ;;
      t <- now ;;
      pushParticles n' position color
        (newParticles ++
         [ParticleData.mk (toString36 env r)
            (vx position + (jx - 0.5) * 0.5,
             vy position + (jy - 0.5) * 0.5,
             vz position + (jz - 0.5) * 0.5)
            color t])
  end.

Definition count : nat := 20.

Definition triggerExplosion (position : Vec3) (color : string) : M unit :=
  newParticles <- pushParticles count position color [] ;;
  set (appendParticles newParticles).

(** A call of a store action: it is recorded in the trace and run. *)
Definition perform (a : Action) : M unit :=
  record a ;;
  match a with
  | SetHandState present x y g r => set (setHandState present x y g r)
  | AddBlock b => set (addBlock b)
  | RemoveBlock i => set (removeBlock i)
  | UpdateBlockPosition i pos rot => set (updateBlockPosition i pos rot)
  | SetSelectedBlock i => set (setSelectedBlock i)
  | SetGrabbedBlock i => set (setGrabbedBlock i)
  | TriggerExplosion position color => triggerExplosion position color
  | ClearParticles i => set (clearParticles i)
  | PanCamera delta => set (panCamera delta)
  end.

(** ** [InteractionManager] ([src/components/Scene3D.tsx]) *)

(** What the component's last render captured from the store. *)
Record Closure : Type := mkClosure
  { c_blocks : list BlockData.t;
    c_gesture : GestureType;
    c_handPresent : bool }.

Definition render (s : AppState) : Closure :=
  mkClosure (blocks s) (gesture s) (handPresent s).

Definition Qltb (a b : Q) : bool := negb (Qle_bool b a).

(** One round of [blocks.forEach]: [closestDist = None] is [Infinity];
    [ray p] is [ray.distanceSqToPoint(p)]. *)
Definition closer (ray : Vec3 -> Q) (acc : option string * option Q)
    (block : BlockData.t) : option string * option Q :=
  let dist := ray (BlockData.position block) in
  if Qltb dist 2 &&
     match snd acc with None => true | Some closestDist => Qltb dist closestDist end
  then (Some (BlockData.id block), Some dist)
  else acc.

Definition findClosest (ray : Vec3 -> Q) (bs : list BlockData.t) : option string :=
  fst (fold_left (closer ray) bs (None, None)).

Definition findBlock (i : string) (bs : list BlockData.t) : option BlockData.t :=
  find (fun b => String.eqb (BlockData.id b) i) bs.

(** The string a selected id holds when it is truthy. *)
Definition idOf (a : option string) : string :=
  match a with Some x => x | None => "" end.

Definition useFrame (c : Closure) (ray : Vec3 -> Q) : M unit :=
  if negb (c_handPresent c) then
    perform (SetSelectedBlock None) ;;
    perform (SetGrabbedBlock None)
  else
    let closestId := findClosest ray (c_blocks c) in
    s <- getState ;;
    let currentlySelected := selectedBlockId s in
    let currentlyGrabbed := grabbedBlockId s in
    prev <- getPrevGesture ;;
    (* SELECT *)
    when (negb (truthy currentlyGrabbed))
      (when (gesture_eqb (c_gesture c) OPEN_PALM || gesture_eqb (c_gesture c) NONE)
         (when (negb (id_eqb closestId currentlySelected))
            (perform (SetSelectedBlock closestId)))) ;;
    (* GRAB *)
    when (truthy currentlySelected && gesture_eqb (c_gesture c) PINCH
          && negb (gesture_eqb prev PINCH))
      (perform (SetGrabbedBlock currentlySelected)) ;;
    (* RELEASE *)
    when (truthy currentlyGrabbed && gesture_eqb (c_gesture c) OPEN_PALM
          && negb (gesture_eqb prev OPEN_PALM))
      (perform (SetGrabbedBlock None)) ;;
    (* EXPLODE *)
    when (truthy currentlySelected && gesture_eqb (c_gesture c) FIST
          && negb (gesture_eqb prev FIST))
      (match findBlock (idOf currentlySelected) (c_blocks c) with
       | Some block =>
           perform (TriggerExplosion (BlockData.position block) (BlockData.color block)) ;;
           perform (RemoveBlock (idOf currentlySelected)) ;;
           perform (SetGrabbedBlock None) ;;
           perform (SetSelectedBlock None)
       | None => ret tt
       end) ;;
    (* DUPLICATE *)
    when (truthy currentlySelected && gesture_eqb (c_gesture c) THUMBS_UP
          && negb (gesture_eqb prev THUMBS_UP))
      (match findBlock (idOf currentlySelected) (c_blocks c) with
       | Some block =>
           r <- random ;;
           perform (AddBlock
                      (BlockData.mk (toString36 env r)
                         (vx (BlockData.position block) + 1.5,
                          vy (BlockData.position block),
                          vz (BlockData.position block))
                         (BlockData.rotation block)
                         (BlockData.color block)
                         (BlockData.scale block)))
       | None => ret tt
       end) ;;
    setRefs (c_gesture c) currentlySelected.

(** ** [FloatingBlock]: the drag branch of its frame callback

    [target] is the smoothed position the callback computes from the camera
    and the cursor; [grabbed] and [g] are the values its render captured. *)
Definition floatingBlockFrame (mounted : bool) (data : BlockData.t)
    (grabbed : option string) (g : GestureType) (target : Vec3) : M unit :=
  if negb mounted then ret tt
  else
    let isGrabbed := id_eqb grabbed (Some (BlockData.id data)) in
    when (isGrabbed && gesture_eqb g PINCH)
      (perform (UpdateBlockPosition (BlockData.id data) target None)).

(** ** [Particles]: the age check of its frame callback ([mounted] is
    [meshRef.current] being set) *)
Definition particlesFrame (mounted : bool) (data : ParticleData.t) : M unit :=
  if negb mounted then ret tt
  else
    t <- now ;;
    let timeAlive := inject_Z (t - ParticleData.createdAt data) / 1000 in
    when (Qltb 2 timeAlive) (perform (ClearParticles (ParticleData.id data))).

(** ** [HandController] *)

Definition calculateWave (history : list Q) : bool :=
  if (List.length history <? 5)%nat then false
  else
    let start := nth 0 history 0 in
    let end_ := nth (List.length history - 1) history 0 in
    let diff := Qabs (start - end_) in
    Qltb 0.4 diff.

(** [waveHistoryRef.current.push(palmX); if (length > 10) shift()] *)
Definition pushWaveHistory (palmX : Q) : M unit :=
  h <- getWaveHistory ;;
  let h' := (h ++ [palmX])%list in
  setWaveHistory (if (10 <? List.length h')%nat then tl h' else h').

(** What the recognizer returned for a video frame: the landmarks of each
    detected hand, and the name of the top category of each.
    [predictWebcam] is the body run for a video frame not processed before
    (the test on [video.currentTime]); drawing is left out. *)
Record Results : Type := mkResults
  { landmarks : list (nat -> Q * Q);
    gestures : list string }.

Definition predictWebcam (results : Results) : M unit :=
  match landmarks results with
  | lm :: _ =>
      let palmX := (fst (lm 0%nat) + fst (lm 5%nat) + fst (lm 17%nat)) / 3 in
      let palmY := (snd (lm 0%nat) + snd (lm 5%nat) + snd (lm 17%nat)) / 3 in
      let cursorX := (1 - palmX) * 2 - 1 in
      let cursorY := - (palmY * 2 - 1) in
      let nativeGesture :=
        match gestures results with g :: _ => g | [] => "None" end in
      let pinchDist :=
        mathHypot env (fst (lm 8%nat) - fst (lm 4%nat))
                      (snd (lm 8%nat) - snd (lm 4%nat)) in
      let isPinching := Qltb pinchDist 0.05 in
      let dy := snd (lm 5%nat) - snd (lm 0%nat) in
      let dx := fst (lm 5%nat) - fst (lm 0%nat) in
      let rot := mathAtan2 env dy dx in
      pushWaveHistory palmX ;;
      h <- getWaveHistory ;;
      let isWaving := calculateWave h in
      currentGesture <-
        (if isWaving then
           lastX <- getLastWaveX ;;
           perform (PanCamera ((lastX - palmX) * 5)) ;;
           ret WAVE
         else if isPinching then ret PINCH
         else if String.eqb nativeGesture "Closed_Fist" then ret FIST
         else if String.eqb nativeGesture "Thumb_Up" then ret THUMBS_UP
         else if String.eqb nativeGesture "Open_Palm" then ret OPEN_PALM
         else ret OPEN_PALM) ;;
      setLastWaveX palmX ;;
      perform (SetHandState true cursorX cursorY currentGesture rot)
  | [] => perform (SetHandState false 0 0 NONE 0)
  end.

(** ** The initial store and world *)

Definition blockName (i : nat) : string :=
  "block-" ++ NilEmpty.string_of_uint (Nat.to_uint i).

(** Block [i] of [Array.from({ length: 12 }).map(...)]: its five
    [Math.random()] calls are calls [5 i] to [5 i + 4] of the program. *)
Definition initialBlock (i : nat) : BlockData.t :=
  let r := fun k => mathRandom env (5 * i + k)%nat in
  BlockData.mk (blockName i)
    ((r 0%nat - 0.5) * 10, (r 1%nat - 0.5) * 6, (r 2%nat - 0.5) * 4)
    (r 3%nat * mathPI env, r 4%nat * mathPI env, 0)
    (if (i mod 2 =? 0)%nat then "#60a5fa"
     else if (i mod 3 =? 0)%nat then "#c084fc" else "#f472b6")
    (1, 1, 1).

Definition initialState : AppState :=
  {| handPresent := false; cursorPosition := (0, 0); gesture := NONE;
     rotation := 0;
     blocks := map initialBlock (seq 0 12);
     particles := [];
     selectedBlockId := None; grabbedBlockId := None; cameraPan := 0 |}.

(** [prevGesture = useRef(gesture)] starts at the store's first gesture. *)
Definition initialWorld : World :=
  mkWorld initialState (gesture initialState) None [] 0 60 0 [].

(** ** The program as a transition system

    One step is one callback of one component.  [InteractionManager] runs
    with what its last render captured: the blocks of the store as they are
    when the callback starts (only its own callback adds or removes blocks,
    and the component renders again before its next frame), and a gesture
    and a hand flag, on which nothing is assumed. *)
Inductive step : World -> World -> Prop :=
| step_interaction (c : Closure) (ray : Vec3 -> Q) (w : World) :
    c_blocks c = blocks (store w) ->
    step w (snd (useFrame c ray w))
| step_drag (mounted : bool) (data : BlockData.t) (target : Vec3) (w : World) :
    In data (blocks (store w)) ->
    step w (snd (floatingBlockFrame mounted data
                   (grabbedBlockId (store w)) (gesture (store w)) target w))
| step_particle (mounted : bool) (data : ParticleData.t) (w : World) :
    In data (particles (store w)) ->
    step w (snd (particlesFrame mounted data w))
| step_hand (results : Results) (w : World) :
    step w (snd (predictWebcam results w)).

Inductive reachable : World -> Prop :=
| reach_init : reachable initialWorld
| reach_step (w w' : World) : reachable w -> step w w' -> reachable w'.

(** A run of the interaction loop alone: before each frame the hand tracker
    has written [(g, ray)] for that frame, a present hand showing gesture [g]
    with the cursor's ray [ray]. *)
Definition frame (g : GestureType) (ray : Vec3 -> Q) : M unit :=
  s <- getState ;;
  useFrame (mkClosure (blocks s) g true) ray.

Fixpoint run (gs : list (GestureType * (Vec3 -> Q))) (w : World) : list World :=
  match gs with
  | [] => []
  | (g, ray) :: rest => w :: run rest (snd (frame g ray w))
  end.

Fixpoint runEnd (gs : list (GestureType * (Vec3 -> Q))) (w : World) : World :=
  match gs with
  | [] => w
  | (g, ray) :: rest => runEnd rest (snd (frame g ray w))
  end.

End Program.

Arguments pushParticles : simpl never.

(** ** Descriptions used in the statements *)

(** The particles [n] rounds of the explosion loop produce when [rc] calls of
    [Math.random] and [cc] calls of [Date.now] have been made before it. *)
Fixpoint burst (env : JSEnv) (n : nat) (position : Vec3) (color : string)
    (rc cc : nat) : list ParticleData.t :=
  match n with
  | O => []
  | S n' =>
      ParticleData.mk (toString36 env (mathRandom env rc))
        (vx position + (mathRandom env (1 + rc) - 0.5) * 0.5,
         vy position + (mathRandom env (2 + rc) - 0.5) * 0.5,
         vz position + (mathRandom env (3 + rc) - 0.5) * 0.5)
        color (dateNow env cc)
      :: burst env n' position color (4 + rc) (1 + cc)
  end.

(** The world a hand-present frame leaves: store [s], the actions [evs]
    appended to the trace, [nr] and [nc] more calls of [Math.random] and
    [Date.now], and the refs set to the frame's gesture and to the selection
    read at its start. *)
Definition after (w : World) (s : AppState) (evs : list Action)
    (g : GestureType) (nr nc : nat) : World :=
  mkWorld s g (selectedBlockId (store w)) (waveHistory w) (lastWaveX w)
    (nr + randomCalls w) (nc + clockCalls w) (trace w ++ evs).

(** The store after the four calls of the EXPLODE branch. *)
Definition exploded (env : JSEnv) (block : BlockData.t) (w : World) : AppState :=
  setSelectedBlock None
    (setGrabbedBlock None
       (removeBlock (idOf (selectedBlockId (store w)))
          (appendParticles
             (burst env count (BlockData.position block) (BlockData.color block)
                (randomCalls w) (clockCalls w))
             (store w)))).

(** The block the DUPLICATE branch passes to [addBlock]. *)
Definition duplicate (env : JSEnv) (block : BlockData.t) (w : World) : BlockData.t :=
  BlockData.mk (toString36 env (mathRandom env (randomCalls w)))
    (vx (BlockData.position block) + 1.5,
     vy (BlockData.position block),
     vz (BlockData.position block))
    (BlockData.rotation block) (BlockData.color block) (BlockData.scale block).

(** A grab event is a call [setGrabbedBlock(id)] with an id. *)
Definition isGrab (a : Action) : bool :=
  match a with SetGrabbedBlock (Some _) => true | _ => false end.

Definition isSelect (a : Action) : bool :=
  match a with SetSelectedBlock _ => true | _ => false end.

Definition grabs (evs : list Action) : nat := List.length (filter isGrab evs).

(** The actions a computation adds to the trace. *)
Definition events (m : M unit) (w : World) : list Action :=
  skipn (List.length (trace w)) (trace (snd (m w))).

(** The three facts kept by every step of the program. *)
Definition pointers_ok (s : AppState) : Prop :=
  grabbedBlockId s = None \/
  (grabbedBlockId s = selectedBlockId s /\ truthy (grabbedBlockId s) = true).

Definition blockIds (s : AppState) : list string :=
  map BlockData.id (blocks s).

Definition names_block (s : AppState) (a : option string) : Prop :=
  forall i, a = Some i -> In i (blockIds s).

Definition no_dangling (s : AppState) : Prop :=
  names_block s (selectedBlockId s) /\ names_block s (grabbedBlockId s).

Definition ids_nonempty (s : AppState) : Prop :=
  ~ In "" (blockIds s).

(** A step that leaves the selection, the grab and the ids of the blocks
    as they are. *)
Definition quiet (s s' : AppState) : Prop :=
  selectedBlockId s' = selectedBlockId s /\
  grabbedBlockId s' = grabbedBlockId s /\
  blockIds s' = blockIds s.

Definition invariant (env : JSEnv) (w : World) : Prop :=
  pointers_ok (store w) /\ no_dangling (store w) /\
  ((forall q, toString36 env q <> "") -> ids_nonempty (store w)).

(** Feeding palm-X samples to the wave history, oldest first. *)
Definition feed (xs : list Q) (w : World) : World :=
  fold_left (fun w x => snd (pushWaveHistory x w)) xs w.

(** ** A concrete environment for the examples

    [Math.random] always returns 1/2 (so equal tokens do occur), the clock
    returns 0 for its first 20 calls, 1000 for the next 20 and 2001 after
    that, and numbers in [0, 1) print in base 36 with at most 11 digits.
    [Math.hypot] and [Math.atan2] are stand-ins: the first is exact when one
    argument is 0, the second is not looked at by any statement. *)

Definition digit36 (d : Z) : ascii :=
  nth (Z.to_nat d) (list_ascii_of_string "0123456789abcdefghijklmnopqrstuvwxyz")
    "0"%char.

Fixpoint fraction36 (fuel : nat) (q : Q) : string :=
  match fuel with
  | O => ""
  | S fuel' =>
      if Qeq_bool q 0 then ""
      else let d := Qfloor (q * 36) in
           String (digit36 d) (fraction36 fuel' (q * 36 - inject_Z d))
  end.

Definition sampleToString36 (q : Q) : string :=
  if Qeq_bool q 0 then "0" else "0." ++ fraction36 11 q.

Definition sampleClock (k : nat) : Z :=
  if (k <? 20)%nat then 0%Z else if (k <? 40)%nat then 1000%Z else 2001%Z.

Definition sampleEnv : JSEnv :=
  mkJSEnv (fun _ => 0.5) sampleClock sampleToString36
    (fun x y => Qabs x + Qabs y) (fun _ _ => 0) (355 # 113).

(** A ray at squared distance 1 from every point, and one that passes
    through the points with x = 1.5 and far from all others. *)
Definition rayNear : Vec3 -> Q := fun _ => 1.
Definition rayAtCopy : Vec3 -> Q := fun p => if Qeq_bool (vx p) 1.5 then 0 else 5.

(** Landmarks of an open hand and of a pinching hand. *)
Definition openHand : nat -> Q * Q :=
  fun k => if (k =? 8)%nat then (0.5, 0.2) else (0.5, 0.5).
Definition pinchingHand : nat -> Q * Q := fun _ => (0.5, 0.5).

Definition sees (lm : nat -> Q * Q) (category : string) : Results :=
  mkResults [lm] [category].

(** Worlds the program reaches under [sampleEnv], used by the examples. *)
Definition handStep (r : Results) (w : World) : World :=
  snd (predictWebcam sampleEnv r w).
Definition frameStep (ray : Vec3 -> Q) (w : World) : World :=
  snd (useFrame sampleEnv (render (store w)) ray w).

(** An open palm is seen and block-0 gets selected. *)
Definition wSelected : World :=
  frameStep rayNear (handStep (sees openHand "Open_Palm") (initialWorld sampleEnv)).
(** Then a fist, a thumbs-up or a pinch is seen. *)
Definition wFist : World := handStep (sees openHand "Closed_Fist") wSelected.
Definition wThumb : World := handStep (sees openHand "Thumb_Up") wSelected.
Definition wPinch : World := handStep (sees pinchingHand "None") wSelected.
(** The pinch grabs block-0; then an open palm is seen. *)
Definition wGrabbed : World := frameStep rayNear wPinch.
Definition wPalmAfterGrab : World := handStep (sees openHand "Open_Palm") wGrabbed.
(** The pinch is relaxed into a thumbs-up (a copy is made, the grab stays),
    then the hand pinches again. *)
Definition wPinchAgain : World :=
  handStep (sees pinchingHand "None")
    (frameStep rayNear (handStep (sees openHand "Thumb_Up") wGrabbed)).
(** From [wThumb]: the copy is made, an open palm selects the copy, and a
    thumbs-up is seen again. *)
Definition wThumbOnCopy : World :=
  handStep (sees openHand "Thumb_Up")
    (frameStep rayAtCopy
       (handStep (sees openHand "Open_Palm") (frameStep rayNear wThumb))).
(** From [wFist]: block-0 explodes at time 0, an open palm selects block-1,
    a fist is seen and block-1 explodes at time 1000. *)
Definition wTwoBursts : World :=
  frameStep rayNear
    (handStep (sees openHand "Closed_Fist")
       (frameStep rayNear
          (handStep (sees openHand "Open_Palm") (frameStep rayNear wFist)))).

(** The frames of the mounted particles [ds], one after the other. *)
Definition sweep (env : JSEnv) (ds : list ParticleData.t) (w : World) : World :=
  fold_left (fun w d => snd (particlesFrame env true d w)) ds w.

(** The first particle of the store. *)
Definition oldestParticle (w : World) : ParticleData.t :=
  hd (ParticleData.mk "" (0, 0, 0) "" 0%Z) (particles (store w)).

(** A world at clock call 40 (time 2001) with two particles of different
    ids, spawned at times 0 and 1000. *)
Definition particleA : ParticleData.t := ParticleData.mk "0.a" (0, 0, 0) "#60a5fa" 0%Z.
Definition particleB : ParticleData.t := ParticleData.mk "0.b" (1, 0, 0) "#c084fc" 1000%Z.
Definition wTwoParticles : World :=
  mkWorld (appendParticles [particleA; particleB] (initialState sampleEnv))
    NONE None [] 0 60 40 [].

(** ** [CameraController] ([src/components/Scene3D.tsx])

    Its frame callback on the ref [targetPan]: the new value of the ref and
    the x the camera is moved to ([camera.lookAt] is left to three.js). *)
Definition cameraFrame (pan targetPan : Q) : Q * Q :=
  let targetPan' := targetPan + (pan - targetPan) * 0.1 in
  (targetPan', - targetPan' * 2).

(** The ref after [n] frames run with the same [cameraPan]. *)
Fixpoint cameraFrames (n : nat) (pan targetPan : Q) : Q :=
  match n with
  | O => targetPan
  | S n' => cameraFrames n' pan (fst (cameraFrame pan targetPan))
  end.

(** ** [CursorOverlay] ([src/App.tsx]): nothing without a hand, else the
    [left] and [top] percentages, the colour classes and the label. *)
Record Overlay : Type := mkOverlay
  { left : Q;
    top : Q;
    colorClass : string;
    label : GestureType }.

Definition CursorOverlay (s : AppState) : option Overlay :=
  if negb (handPresent s) then None
  else
    let x := fst (cursorPosition s) in
    let y := snd (cursorPosition s) in
    let screenX := (x + 1) * 50 in
    let screenY := (- y + 1) * 50 in
    let color :=
      if gesture_eqb (gesture s) PINCH then "border-green-400 bg-green-400/30"
      else if gesture_eqb (gesture s) FIST then "border-red-500 bg-red-500/30"
      else "border-blue-400" in
    Some (mkOverlay screenX screenY color (gesture s)).

(** ** [Particles] ([src/components/Particles.tsx]): the whole callback

    [Transform] is what [dummy] holds when its matrix is written to one
    instance. *)
Record Transform : Type := mkTransform
  { t_position : Vec3;
    t_rotation : Vec3;
    t_scale : Vec3 }.

Section Rendering.

Variable env : JSEnv.

Local Open Scope js_scope.

Definition particleCount : nat := 30.

(** The loop of the [useMemo] that draws the velocities. *)
Fixpoint pushVelocities (n : nat) (v : list Vec3) : M (list Vec3) :=
  match n with
  | O => ret v
  | S n' =>
      x <- random env ;;
      y <- random env ;;
      z <- random env ;;
      pushVelocities n' (v ++ [((x - 0.5) * 0.2, (y - 0.5) * 0.2, (z - 0.5) * 0.2)])
  end.

Definition initVelocities : M (list Vec3) := pushVelocities particleCount [].

(** The loop over the instances: [velocities] holds one entry per instance
    ([particleCount] of them), visited in order; [matrices] collects what
    [setMatrixAt] is given. *)
Fixpoint setMatrices (velocities : list Vec3) (data : ParticleData.t)
    (timeAlive : Q) (matrices : list Transform) : M (list Transform) :=
  match velocities with
  | [] => ret matrices
  | v :: rest =>
      rx <- random env ;;
      ry <- random env ;;
      rz <- random env ;;
      let s := Qmax 0 (1 - timeAlive) in
      setMatrices rest data timeAlive
        (matrices ++
         [mkTransform
            (vx (ParticleData.position data) + vx v * timeAlive * 20,
             vy (ParticleData.position data) + vy v * timeAlive * 20,
             vz (ParticleData.position data) + vz v * timeAlive * 20)
            (rx * timeAlive, ry * timeAlive, rz * timeAlive)
            (s * 0.2, s * 0.2, s * 0.2)])
  end.

(** The callback: the age check of [particlesFrame], then the loop.  It
    returns the matrices written in this frame. *)
Definition particlesUseFrame (mounted : bool) (velocities : list Vec3)
    (data : ParticleData.t) : M (list Transform) :=
  if negb mounted then ret []
  else
    t <- now env ;;
    let timeAlive := inject_Z (t - ParticleData.createdAt data) / 1000 in
    if Qltb 2 timeAlive then
      perform env (ClearParticles (ParticleData.id data)) ;;
      ret []
    else setMatrices velocities data timeAlive [].

(** The worlds the hand tracker goes through on the video frames [rs]. *)
Fixpoint track (rs : list Results) (w : World) : list World :=
  match rs with
  | [] => []
  | r :: rest =>
      let w1 := snd (predictWebcam env r w) in
      w1 :: track rest w1
  end.

End Rendering.

Arguments pushVelocities : simpl never.
Arguments setMatrices : simpl never.

(** The palm centre [predictWebcam] computes from the landmarks. *)
Definition palmXOf (lm : nat -> Q * Q) : Q :=
  (fst (lm 0%nat) + fst (lm 5%nat) + fst (lm 17%nat)) / 3.
Definition palmYOf (lm : nat -> Q * Q) : Q :=
  (snd (lm 0%nat) + snd (lm 5%nat) + snd (lm 17%nat)) / 3.

(** What was pushed in the history is at most ten samples long. *)
Definition history_bounded (w : World) : Prop :=
  (List.length (waveHistory w) <= 10)%nat.

(** While something is grabbed the previous gesture is not OPEN_PALM. *)
Definition release_armed (w : World) : Prop :=
  grabbedBlockId (store w) = None \/ prevGesture w <> OPEN_PALM.

(** Sample data for the examples below: a copy of block-0, a hand whose
    palm is at [x], and the world after four video frames with the palm at
    0.9. *)
Definition copyOfBlock0 : BlockData.t :=
  BlockData.mk "0.i" (1.5, 0, 0) (0, 0, 0) "#60a5fa" (1, 1, 1).
Definition wavingHand (x : Q) : nat -> Q * Q := fun _ => (x, 0.5).
Definition wPalmRight : World :=
  handStep (sees (wavingHand 0.9) "Open_Palm")
    (handStep (sees (wavingHand 0.9) "Open_Palm")
       (handStep (sees (wavingHand 0.9) "Open_Palm")
          (handStep (sees (wavingHand 0.9) "Open_Palm") (initialWorld sampleEnv)))).

(** ** Basic facts *)

Lemma gesture_eqb_eq (a b : GestureType) : gesture_eqb a b = true <-> a = b.
Proof. destruct a, b; cbn; split; intros H; try reflexivity; discriminate H. Qed.

Lemma gesture_eqb_neq (a b : GestureType) : gesture_eqb a b = false <-> a <> b.
Proof.
  split.
  - intros H E. apply gesture_eqb_eq in E. congruence.
  - intros H. destruct (gesture_eqb a b) eqn:E; [|reflexivity].
    apply gesture_eqb_eq in E. contradiction.
Qed.

Lemma id_eqb_eq (a b : option string) : id_eqb a b = true <-> a = b.
Proof.
  destruct a as [x|], b as [y|]; cbn; split; intros H;
    try reflexivity; try discriminate H.
  - apply String.eqb_eq in H. now subst.
  - injection H as ->. apply String.eqb_refl.
Qed.

Lemma truthy_some (a : option string) :
  truthy a = true -> exists i, a = Some i /\ i <> "".
Proof.
  destruct a as [x|]; cbn; [|discriminate].
  intros H. exists x. split; [reflexivity|].
  intros ->. discriminate H.
Qed.

Lemma truthy_nonempty (i : string) : i <> "" -> truthy (Some i) = true.
Proof.
  intros H. cbn. destruct (String.eqb_spec i ""); [contradiction|reflexivity].
Qed.

(** ** The explosion loop *)

Lemma pushParticles_eq env n : forall p c acc w,
  pushParticles env n p c acc w =
  ((acc ++ burst env n p c (randomCalls w) (clockCalls w))%list,
   mkWorld (store w) (prevGesture w) (prevSelectedId w) (waveHistory w)
     (lastWaveX w) (4 * n + randomCalls w) (n + clockCalls w) (trace w)).
Proof.
  induction n as [|n IH]; intros p c acc w.
  - cbn. rewrite app_nil_r. destruct w; reflexivity.
  - unfold pushParticles; fold (pushParticles env). unfold bind, random, now.
    rewrite IH.
    cbn [store prevGesture prevSelectedId waveHistory lastWaveX randomCalls
         clockCalls trace burst].
    rewrite <- app_assoc. cbn [app]. f_equal. f_equal; lia.
Qed.

Lemma perform_explosion env p c w :
  perform env (TriggerExplosion p c) w =
  (tt, mkWorld
         (appendParticles (burst env count p c (randomCalls w) (clockCalls w))
            (store w))
         (prevGesture w) (prevSelectedId w) (waveHistory w) (lastWaveX w)
         (4 * count + randomCalls w) (count + clockCalls w)
         (trace w ++ [TriggerExplosion p c])).
Proof.
  unfold perform, triggerExplosion, bind, record, set.
  rewrite pushParticles_eq. reflexivity.
Qed.

Lemma burst_length env n : forall p c rc cc,
  List.length (burst env n p c rc cc) = n.
Proof. induction n as [|n IH]; intros; cbn; [reflexivity|now rewrite IH]. Qed.

Lemma burst_In env n : forall p c rc cc x,
  In x (burst env n p c rc cc) ->
  exists k1 k2 k3 : nat,
    ParticleData.position x =
      (vx p + (mathRandom env k1 - 0.5) * 0.5,
       vy p + (mathRandom env k2 - 0.5) * 0.5,
       vz p + (mathRandom env k3 - 0.5) * 0.5) /\
    ParticleData.color x = c.
Proof.
  induction n as [|n IH]; intros p c rc cc x H; cbn in H; [contradiction|].
  destruct H as [<-|H].
  - exists (1 + rc)%nat, (2 + rc)%nat, (3 + rc)%nat. split; reflexivity.
  - eapply IH; eassumption.
Qed.

Lemma jitter_bound (a r : Q) :
  0 <= r -> r < 1 -> Qabs (a + (r - 0.5) * 0.5 - a) <= 0.25.
Proof.
  intros H0 H1. apply Qabs_Qle_condition. split; lra.
Qed.

(** ** What one frame of [InteractionManager] does, gesture by gesture *)

Section Frames.

Variable env : JSEnv.
Variable c : Closure.
Variable ray : Vec3 -> Q.
Variable w : World.

Let sel := selectedBlockId (store w).
Let grabbed := grabbedBlockId (store w).
Let prev := prevGesture w.

Lemma useFrame_absent :
  c_handPresent c = false ->
  useFrame env c ray w =
  (tt, mkWorld (setGrabbedBlock None (setSelectedBlock None (store w)))
         (prevGesture w) (prevSelectedId w) (waveHistory w) (lastWaveX w)
         (randomCalls w) (clockCalls w)
         (trace w ++ [SetSelectedBlock None; SetGrabbedBlock None])).
Proof.
  intros H. unfold useFrame. rewrite H. cbn. rewrite <- app_assoc. reflexivity.
Qed.

Lemma useFrame_select :
  c_handPresent c = true ->
  c_gesture c = NONE \/ c_gesture c = OPEN_PALM ->
  truthy grabbed = false ->
  useFrame env c ray w =
  (tt, if id_eqb (findClosest ray (c_blocks c)) sel
       then after w (store w) [] (c_gesture c) 0 0
       else after w (setSelectedBlock (findClosest ray (c_blocks c)) (store w))
              [SetSelectedBlock (findClosest ray (c_blocks c))] (c_gesture c) 0 0).
Proof.
  subst sel grabbed. intros Hp Hg Ht. unfold useFrame, after. rewrite Hp.
  destruct Hg as [Hg|Hg]; rewrite Hg; cbn; rewrite Ht; cbn;
    destruct (id_eqb _ _); cbn; rewrite ?app_nil_r;
    destruct (truthy (selectedBlockId (store w))); reflexivity.
Qed.

Lemma useFrame_hold :
  c_handPresent c = true -> c_gesture c = NONE -> truthy grabbed = true ->
  useFrame env c ray w = (tt, after w (store w) [] NONE 0 0).
Proof.
  subst grabbed. intros Hp Hg Ht. unfold useFrame, after. rewrite Hp, Hg. cbn.
  rewrite Ht. cbn. rewrite app_nil_r.
  destruct (truthy (selectedBlockId (store w))); reflexivity.
Qed.

Lemma useFrame_palm_grabbed :
  c_handPresent c = true -> c_gesture c = OPEN_PALM -> truthy grabbed = true ->
  useFrame env c ray w =
  (tt, if negb (gesture_eqb prev OPEN_PALM)
       then after w (setGrabbedBlock None (store w)) [SetGrabbedBlock None]
              OPEN_PALM 0 0
       else after w (store w) [] OPEN_PALM 0 0).
Proof.
  subst grabbed prev. intros Hp Hg Ht. unfold useFrame, after. rewrite Hp, Hg.
  cbn. rewrite Ht. cbn.
  destruct (truthy (selectedBlockId (store w))); cbn;
    destruct (gesture_eqb (prevGesture w) OPEN_PALM); cbn; rewrite ?app_nil_r;
    reflexivity.
Qed.

Lemma useFrame_pinch :
  c_handPresent c = true -> c_gesture c = PINCH ->
  useFrame env c ray w =
  (tt, if truthy sel && negb (gesture_eqb prev PINCH)
       then after w (setGrabbedBlock sel (store w)) [SetGrabbedBlock sel] PINCH 0 0
       else after w (store w) [] PINCH 0 0).
Proof.
  subst sel prev. intros Hp Hg. unfold useFrame, after. rewrite Hp, Hg. cbn.
  destruct (truthy (grabbedBlockId (store w))); cbn;
    destruct (truthy (selectedBlockId (store w))); cbn; rewrite ?app_nil_r;
    try reflexivity;
    destruct (gesture_eqb (prevGesture w) PINCH); cbn; rewrite ?app_nil_r;
    reflexivity.
Qed.

Lemma useFrame_fist :
  c_handPresent c = true -> c_gesture c = FIST ->
  useFrame env c ray w =
  (tt, if truthy sel && negb (gesture_eqb prev FIST)
       then match findBlock (idOf sel) (c_blocks c) with
            | Some block =>
                after w (exploded env block w)
                  [TriggerExplosion (BlockData.position block) (BlockData.color block);
                   RemoveBlock (idOf sel);
                   SetGrabbedBlock None; SetSelectedBlock None]
                  FIST (4 * count) count
            | None => after w (store w) [] FIST 0 0
            end
       else after w (store w) [] FIST 0 0).
Proof.
  subst sel prev. intros Hp Hg. unfold useFrame, after. rewrite Hp, Hg. cbn.
  destruct (truthy (grabbedBlockId (store w))); cbn;
    destruct (truthy (selectedBlockId (store w))); cbn; rewrite ?app_nil_r;
    try reflexivity.
  all: destruct (gesture_eqb (prevGesture w) FIST); cbn; rewrite ?app_nil_r;
    try reflexivity.
  all: destruct (findBlock _ _); cbn; rewrite ?app_nil_r; try reflexivity.
  all: unfold bind; rewrite perform_explosion; cbn; rewrite <- !app_assoc;
    reflexivity.
Qed.

Lemma useFrame_thumbs :
  c_handPresent c = true -> c_gesture c = THUMBS_UP ->
  useFrame env c ray w =
  (tt, if truthy sel && negb (gesture_eqb prev THUMBS_UP)
       then match findBlock (idOf sel) (c_blocks c) with
            | Some block =>
                after w (addBlock (duplicate env block w) (store w))
                  [AddBlock (duplicate env block w)] THUMBS_UP 1 0
            | None => after w (store w) [] THUMBS_UP 0 0
            end
       else after w (store w) [] THUMBS_UP 0 0).
Proof.
  subst sel prev. intros Hp Hg. unfold useFrame, after. rewrite Hp, Hg. cbn.
  destruct (truthy (grabbedBlockId (store w))); cbn;
    destruct (truthy (selectedBlockId (store w))); cbn; rewrite ?app_nil_r;
    try reflexivity.
  all: destruct (gesture_eqb (prevGesture w) THUMBS_UP); cbn; rewrite ?app_nil_r;
    try reflexivity.
  all: destruct (findBlock _ _); cbn; rewrite ?app_nil_r; reflexivity.
Qed.

Lemma useFrame_idle :
  c_handPresent c = true -> c_gesture c = WAVE \/ c_gesture c = POINTING_UP ->
  useFrame env c ray w = (tt, after w (store w) [] (c_gesture c) 0 0).
Proof.
  intros Hp Hg. unfold useFrame, after. rewrite Hp.
  destruct Hg as [Hg|Hg]; rewrite Hg; cbn;
    destruct (truthy (grabbedBlockId (store w))); cbn;
    destruct (truthy (selectedBlockId (store w))); cbn; rewrite ?app_nil_r;
    reflexivity.
Qed.

End Frames.

(** ** The other callbacks leave the selection and the block ids alone *)

Lemma updateBlockPosition_ids i pos rot s :
  blockIds (updateBlockPosition i pos rot s) = blockIds s.
Proof.
  unfold blockIds. cbn. rewrite map_map. apply map_ext.
  intros b. destruct (String.eqb (BlockData.id b) i); reflexivity.
Qed.

Lemma floatingBlockFrame_quiet env mounted data g gest target w :
  quiet (store w) (store (snd (floatingBlockFrame env mounted data g gest target w))).
Proof.
  unfold floatingBlockFrame. destruct mounted; cbn; [|repeat split].
  destruct (id_eqb g (Some (BlockData.id data)) && gesture_eqb gest PINCH); cbn.
  - repeat split. apply updateBlockPosition_ids.
  - repeat split.
Qed.

Lemma particlesFrame_store env mounted data w :
  store (snd (particlesFrame env mounted data w)) =
  if mounted &&
     Qltb 2 (inject_Z (dateNow env (clockCalls w) - ParticleData.createdAt data) / 1000)
  then clearParticles (ParticleData.id data) (store w)
  else store w.
Proof.
  unfold particlesFrame. destruct mounted; cbn; [|reflexivity].
  destruct (Qltb 2 _); reflexivity.
Qed.

Lemma particlesFrame_quiet env mounted data w :
  quiet (store w) (store (snd (particlesFrame env mounted data w))).
Proof.
  rewrite particlesFrame_store. destruct (_ && _); repeat split.
Qed.

Lemma predictWebcam_quiet env results w :
  quiet (store w) (store (snd (predictWebcam env results w))).
Proof.
  unfold predictWebcam. destruct (landmarks results) as [|lm rest]; cbn.
  - repeat split.
  - destruct (calculateWave _); cbn; [repeat split|].
    destruct (Qltb _ _); cbn; [repeat split|].
    repeat (match goal with
            | |- context [String.eqb ?a ?b] => destruct (String.eqb a b); cbn
            end); repeat split.
Qed.

Lemma quiet_invariant env w w' :
  quiet (store w) (store w') -> invariant env w -> invariant env w'.
Proof.
  intros (Hs & Hg & Hb) (Hp & (Hn1 & Hn2) & Hi).
  unfold invariant, pointers_ok, no_dangling, names_block, ids_nonempty.
  rewrite Hs, Hg, Hb. auto.
Qed.

(** ** The frame of [InteractionManager] keeps the invariant *)

Lemma closer_In ray :
  forall bs acc i,
    fst (fold_left (closer ray) bs acc) = Some i ->
    fst acc = Some i \/ In i (map BlockData.id bs).
Proof.
  induction bs as [|b bs IH]; intros acc i H; cbn in H.
  - now left.
  - apply IH in H. destruct H as [H|H]; [|right; now right].
    unfold closer in H.
    destruct (Qltb (ray (BlockData.position b)) 2 && _); [|now left].
    cbn in H. injection H as <-. right. now left.
Qed.

Lemma findClosest_In ray bs i :
  findClosest ray bs = Some i -> In i (map BlockData.id bs).
Proof.
  unfold findClosest. intros H. apply closer_In in H.
  destruct H as [H|H]; [discriminate H|exact H].
Qed.

Lemma removeBlock_ids i s :
  blockIds (removeBlock i s) = filter (fun j => negb (String.eqb j i)) (blockIds s).
Proof.
  unfold blockIds. cbn. induction (blocks s) as [|b bs IH]; cbn; [reflexivity|].
  destruct (String.eqb (BlockData.id b) i); cbn; now rewrite IH.
Qed.

Lemma addBlock_ids b s :
  blockIds (addBlock b s) = (blockIds s ++ [BlockData.id b])%list.
Proof. unfold blockIds. cbn. now rewrite map_app. Qed.

Ltac frame_cases env c ray w :=
  let Hp := fresh "Hp" in
  let Hg := fresh "Hg" in
  let Ht := fresh "Ht" in
  destruct (c_handPresent c) eqn:Hp;
  [ destruct (c_gesture c) eqn:Hg;
    [ destruct (truthy (grabbedBlockId (store w))) eqn:Ht;
      [ rewrite (useFrame_hold env c ray w Hp Hg Ht)
      | rewrite (useFrame_select env c ray w Hp (or_introl Hg) Ht) ]
    | destruct (truthy (grabbedBlockId (store w))) eqn:Ht;
      [ rewrite (useFrame_palm_grabbed env c ray w Hp Hg Ht)
      | rewrite (useFrame_select env c ray w Hp (or_intror Hg) Ht) ]
    | rewrite (useFrame_pinch env c ray w Hp Hg)
    | rewrite (useFrame_fist env c ray w Hp Hg)
    | rewrite (useFrame_thumbs env c ray w Hp Hg)
    | rewrite (useFrame_idle env c ray w Hp (or_introl Hg))
    | rewrite (useFrame_idle env c ray w Hp (or_intror Hg)) ]
  | rewrite (useFrame_absent env c ray w Hp) ].

Ltac split_frame :=
  repeat match goal with
         | |- context [if ?b then _ else _] => destruct b eqn:?
         | |- context [match findBlock ?a ?b with _ => _ end] =>
             destruct (findBlock a b) eqn:?
         end; cbn.

Lemma useFrame_pointers_ok env c ray w :
  pointers_ok (store w) -> pointers_ok (store (snd (useFrame env c ray w))).
Proof.
  intros H. unfold pointers_ok in *.
  frame_cases env c ray w; cbn; split_frame; auto.
  all: try (destruct H as [H|[H1 H2]];
            [now left
            |first [discriminate H2 | right; split; [exact H1|assumption]]]).
  right. split; [reflexivity|].
  match goal with E : _ && _ = true |- _ => apply andb_prop in E; apply E end.
Qed.

Lemma useFrame_no_dangling env c ray w :
  c_blocks c = blocks (store w) ->
  no_dangling (store w) -> no_dangling (store (snd (useFrame env c ray w))).
Proof.
  intros Hc [Hs Hgr]. unfold no_dangling, names_block in *.
  frame_cases env c ray w; cbn; split_frame; auto.
  all: split; intros i Hi; try discriminate Hi; auto.
  all: try (rewrite Hc in Hi; now apply findClosest_In in Hi).
  all: rewrite map_app; apply in_or_app; left; unfold blockIds in *; auto.
Qed.

Lemma blockName_nonempty i : blockName i <> "".
Proof. unfold blockName. cbn. discriminate. Qed.

Lemma useFrame_ids_nonempty env c ray w :
  (forall q, toString36 env q <> "") ->
  ids_nonempty (store w) -> ids_nonempty (store (snd (useFrame env c ray w))).
Proof.
  intros Hts H. unfold ids_nonempty in *.
  frame_cases env c ray w; cbn; split_frame; auto.
  - change (~ In "" (blockIds (removeBlock (idOf (selectedBlockId (store w))) (store w)))).
    rewrite removeBlock_ids. intros Hin. apply filter_In in Hin. tauto.
  - change (~ In "" (blockIds (addBlock (duplicate env t w) (store w)))).
    rewrite addBlock_ids. intros Hin. apply in_app_or in Hin.
    destruct Hin as [Hin|[Hin|[]]]; [tauto|]. cbn in Hin.
    revert Hin. apply Hts.
Qed.

Lemma useFrame_invariant env c ray w :
  c_blocks c = blocks (store w) ->
  invariant env w -> invariant env (snd (useFrame env c ray w)).
Proof.
  intros Hc (Hp & Hn & Hi). split; [|split].
  - now apply useFrame_pointers_ok.
  - now apply useFrame_no_dangling.
  - intros Hts. apply useFrame_ids_nonempty; auto.
Qed.

Lemma initial_invariant env : invariant env (initialWorld env).
Proof.
  split; [|split].
  - now left.
  - split; intros i Hi; discriminate Hi.
  - intros _. unfold ids_nonempty, blockIds. cbn [initialWorld store initialState blocks].
    rewrite map_map. intros Hin. apply in_map_iff in Hin.
    destruct Hin as (i & Hi & _). revert Hi. apply blockName_nonempty.
Qed.

Lemma step_invariant env w w' : step env w w' -> invariant env w -> invariant env w'.
Proof.
  intros Hstep.
  destruct Hstep as [c ray w Hc | mounted data target w _ | mounted data w _ | results w].
  - now apply useFrame_invariant.
  - apply quiet_invariant, floatingBlockFrame_quiet.
  - apply quiet_invariant, particlesFrame_quiet.
  - apply quiet_invariant, predictWebcam_quiet.
Qed.

Lemma reachable_invariant env w : reachable env w -> invariant env w.
Proof.
  induction 1 as [|w w' _ IH Hstep].
  - apply initial_invariant.
  - eapply step_invariant; eassumption.
Qed.

(** In a reachable world a selected or grabbed id is truthy. *)
Lemma reachable_selected_truthy env w i :
  (forall q, toString36 env q <> "") -> reachable env w ->
  selectedBlockId (store w) = Some i -> truthy (selectedBlockId (store w)) = true.
Proof.
  intros Hts Hr Hs. destruct (reachable_invariant env w Hr) as (_ & [Hn _] & Hi).
  rewrite Hs. apply truthy_nonempty. intros ->.
  apply (Hi Hts). now apply Hn.
Qed.

Lemma reachable_grabbed_truthy env w :
  reachable env w -> grabbedBlockId (store w) <> None ->
  truthy (grabbedBlockId (store w)) = true.
Proof.
  intros Hr Hg. destruct (reachable_invariant env w Hr) as ([Hp|[_ Hp]] & _).
  - contradiction.
  - exact Hp.
Qed.


(** ** Traces *)

Lemma skipn_length_app {A : Type} (l r : list A) :
  skipn (List.length l) (l ++ r) = r.
Proof. induction l as [|a l IH]; cbn; [reflexivity|exact IH]. Qed.

Lemma events_app (m : M unit) (w : World) (evs : list Action) :
  trace (snd (m w)) = (trace w ++ evs)%list -> events m w = evs.
Proof. intros H. unfold events. rewrite H. apply skipn_length_app. Qed.

(** ** The sample worlds are reachable *)

Lemma reach_hand r w : reachable sampleEnv w -> reachable sampleEnv (handStep r w).
Proof. intros H. eapply reach_step; [exact H|apply step_hand]. Qed.

Lemma reach_frame ray w : reachable sampleEnv w -> reachable sampleEnv (frameStep ray w).
Proof. intros H. eapply reach_step; [exact H|now apply step_interaction]. Qed.

Create HintDb reach.
#[local] Hint Resolve reach_init reach_hand reach_frame : reach.

Lemma wSelected_reachable : reachable sampleEnv wSelected.
Proof. unfold wSelected. auto with reach. Qed.

#[local] Hint Resolve wSelected_reachable : reach.

Lemma wFist_reachable : reachable sampleEnv wFist.
Proof. unfold wFist. auto with reach. Qed.

Lemma wThumb_reachable : reachable sampleEnv wThumb.
Proof. unfold wThumb. auto with reach. Qed.

Lemma wGrabbed_reachable : reachable sampleEnv wGrabbed.
Proof. unfold wGrabbed, wPinch. auto with reach. Qed.

#[local] Hint Resolve wFist_reachable wThumb_reachable wGrabbed_reachable : reach.

Lemma wPalmAfterGrab_reachable : reachable sampleEnv wPalmAfterGrab.
Proof. unfold wPalmAfterGrab. auto with reach. Qed.

Lemma wPinchAgain_reachable : reachable sampleEnv wPinchAgain.
Proof. unfold wPinchAgain. auto with reach. Qed.

Lemma wThumbOnCopy_reachable : reachable sampleEnv wThumbOnCopy.
Proof. unfold wThumbOnCopy. auto 10 with reach. Qed.

Lemma wTwoBursts_reachable : reachable sampleEnv wTwoBursts.
Proof. unfold wTwoBursts. auto 10 with reach. Qed.

Lemma sampleToString36_nonempty q : toString36 sampleEnv q <> "".
Proof.
  cbn. unfold sampleToString36. destruct (Qeq_bool q 0); discriminate.
Qed.

Lemma sampleRandom_range k :
  0 <= mathRandom sampleEnv k /\ mathRandom sampleEnv k < 1.
Proof. cbn. split; lra. Qed.

(** ** The claims *)

(** C1.  In every world the program reaches (by frames of the interaction
    loop, hand present or absent, and by the callbacks of the other
    components), a non-null [grabbedBlockId] is equal to
    [selectedBlockId]. *)
Theorem C1_grabbed_is_selected env w :
  reachable env w ->
  grabbedBlockId (store w) <> None ->
  selectedBlockId (store w) = grabbedBlockId (store w).
Proof.
  intros Hr Hg. destruct (reachable_invariant env w Hr) as ([Hp|[Hp _]] & _).
  - contradiction.
  - symmetry. exact Hp.
Qed.

Lemma C1_witness :
  grabbedBlockId (store wGrabbed) = Some "block-0" /\
  selectedBlockId (store wGrabbed) = grabbedBlockId (store wGrabbed).
Proof.
  split; [vm_compute; reflexivity|].
  apply (C1_grabbed_is_selected sampleEnv wGrabbed wGrabbed_reachable).
  vm_compute. discriminate.
Defined.

(** C7.  A frame run with [handPresent = false] leaves [selectedBlockId] and
    [grabbedBlockId] null, calls nothing but the two clearing actions,
    touches neither the blocks, the particles nor the previous-gesture ref,
    and running it again changes nothing more. *)
Theorem C7_hand_absent env c ray w :
  c_handPresent c = false ->
  let w' := snd (useFrame env c ray w) in
  selectedBlockId (store w') = None /\
  grabbedBlockId (store w') = None /\
  events (useFrame env c ray) w = [SetSelectedBlock None; SetGrabbedBlock None] /\
  blocks (store w') = blocks (store w) /\
  particles (store w') = particles (store w) /\
  prevGesture w' = prevGesture w /\
  store (snd (useFrame env c ray w')) = store w'.
Proof.
  intros Hp w'. subst w'.
  assert (E := useFrame_absent env c ray w Hp).
  split; [|split; [|split]]; try (rewrite E; reflexivity).
  - apply events_app. rewrite E. reflexivity.
  - rewrite E. cbn [snd]. rewrite (useFrame_absent env c ray _ Hp).
    repeat split.
Qed.

Lemma C7_witness :
  selectedBlockId (store wGrabbed) = Some "block-0" /\
  selectedBlockId
    (store (snd (useFrame sampleEnv (mkClosure (blocks (store wGrabbed)) NONE false)
                   rayNear wGrabbed))) = None.
Proof.
  split; [vm_compute; reflexivity|].
  apply (C7_hand_absent sampleEnv (mkClosure (blocks (store wGrabbed)) NONE false)
           rayNear wGrabbed).
  reflexivity.
Defined.

(** C6.  In a reachable world with a grabbed object, a frame with the hand
    present, gesture OPEN_PALM and a different previous gesture calls
    [setGrabbedBlock(null)] and nothing else: [grabbedBlockId] becomes null
    and the selection, the blocks and the particles stay as they were. *)
Theorem C6_release_clears_only_grab env c ray w :
  reachable env w ->
  grabbedBlockId (store w) <> None ->
  c_handPresent c = true -> c_gesture c = OPEN_PALM ->
  prevGesture w <> OPEN_PALM ->
  let w' := snd (useFrame env c ray w) in
  events (useFrame env c ray) w = [SetGrabbedBlock None] /\
  store w' = setGrabbedBlock None (store w) /\
  grabbedBlockId (store w') = None /\
  selectedBlockId (store w') = selectedBlockId (store w) /\
  blocks (store w') = blocks (store w) /\
  particles (store w') = particles (store w).
Proof.
  intros Hr Hg Hp Hges Hprev w'. subst w'.
  assert (Ht := reachable_grabbed_truthy env w Hr Hg).
  assert (E := useFrame_palm_grabbed env c ray w Hp Hges Ht).
  apply gesture_eqb_neq in Hprev. rewrite Hprev in E. cbn in E.
  split; [apply events_app; rewrite E; reflexivity|].
  rewrite E. cbn. repeat split.
Qed.

Lemma C6_witness :
  grabbedBlockId (store wPalmAfterGrab) = Some "block-0" /\
  grabbedBlockId (store (frameStep rayNear wPalmAfterGrab)) = None.
Proof.
  split; [vm_compute; reflexivity|].
  refine (proj1 (proj2 (proj2
            (C6_release_clears_only_grab sampleEnv (render (store wPalmAfterGrab))
               rayNear wPalmAfterGrab wPalmAfterGrab_reachable _ _ _ _)))).
  - vm_compute. discriminate.
  - vm_compute. reflexivity.
  - vm_compute. reflexivity.
  - vm_compute. discriminate.
Defined.

(** C4 as stated fails: in [wPinchAgain] block-0 is already grabbed, the
    gesture is PINCH and the previous one THUMBS_UP, and the frame calls
    [setGrabbedBlock("block-0")] all the same. *)
Lemma C4_counterexample :
  reachable sampleEnv wPinchAgain /\
  grabbedBlockId (store wPinchAgain) = Some "block-0" /\
  handPresent (store wPinchAgain) = true /\
  gesture (store wPinchAgain) = PINCH /\
  prevGesture wPinchAgain = THUMBS_UP /\
  events (useFrame sampleEnv (render (store wPinchAgain)) rayNear) wPinchAgain
  = [SetGrabbedBlock (Some "block-0")].
Proof.
  split; [exact wPinchAgain_reachable|]. vm_compute. repeat split.
Qed.

(** C4, amended.  On a frame with the hand present, gesture PINCH and a
    different previous gesture, the grab depends on the selection alone:
    when an id is selected the frame calls [setGrabbedBlock] with it (and
    nothing else), whether or not something is grabbed already; when none
    is, the frame calls nothing and the store is unchanged. *)
Theorem C4_grab_on_pinch_edge env c ray w :
  c_handPresent c = true -> c_gesture c = PINCH -> prevGesture w <> PINCH ->
  let w' := snd (useFrame env c ray w) in
  (truthy (selectedBlockId (store w)) = true ->
     events (useFrame env c ray) w = [SetGrabbedBlock (selectedBlockId (store w))] /\
     grabbedBlockId (store w') = selectedBlockId (store w) /\
     selectedBlockId (store w') = selectedBlockId (store w)) /\
  (truthy (selectedBlockId (store w)) = false ->
     events (useFrame env c ray) w = [] /\ store w' = store w).
Proof.
  intros Hp Hg Hprev w'. subst w'.
  assert (E := useFrame_pinch env c ray w Hp Hg).
  apply gesture_eqb_neq in Hprev. rewrite Hprev in E.
  split; intros Hs; rewrite Hs in E; cbn in E.
  - split; [apply events_app; rewrite E; reflexivity|].
    rewrite E. split; reflexivity.
  - split; [apply events_app; rewrite E; reflexivity|].
    rewrite E. reflexivity.
Qed.

Lemma C4_witness :
  events (useFrame sampleEnv (render (store wPinch)) rayNear) wPinch
  = [SetGrabbedBlock (Some "block-0")].
Proof.
  apply (C4_grab_on_pinch_edge sampleEnv (render (store wPinch)) rayNear wPinch);
    vm_compute; first [reflexivity|discriminate].
Defined.

(** The number of grab events of a hand-present frame. *)
Lemma useFrame_grabs env c ray w :
  c_handPresent c = true ->
  grabs (events (useFrame env c ray) w) =
  if gesture_eqb (c_gesture c) PINCH && negb (gesture_eqb (prevGesture w) PINCH)
     && truthy (selectedBlockId (store w))
  then 1%nat else 0%nat.
Proof.
  intros Hp. unfold events, grabs.
  frame_cases env c ray w; try discriminate; cbn [gesture_eqb andb];
    split_frame; rewrite ?skipn_length_app; try reflexivity.
  all: destruct (selectedBlockId (store w)) as [i|]; cbn in *;
    try destruct (String.eqb i ""); try destruct (gesture_eqb (prevGesture w) PINCH);
    cbn in *; congruence.
Qed.

Lemma useFrame_repeat env c ray w :
  c_handPresent c = true -> c_gesture c = prevGesture w ->
  forallb isSelect (events (useFrame env c ray) w) = true.
Proof.
  intros Hp Hrep. unfold events.
  frame_cases env c ray w; try discriminate;
    try rewrite Hg in Hrep; try rewrite <- Hrep; cbn [gesture_eqb negb andb];
    rewrite ?andb_false_r; split_frame; rewrite ?skipn_length_app; try reflexivity.
Qed.

Lemma frame_eq env g ray w :
  frame env g ray w = useFrame env (mkClosure (blocks (store w)) g true) ray w.
Proof. reflexivity. Qed.

Lemma frame_trace env g ray w :
  trace (snd (frame env g ray w)) =
  (trace w ++ events (useFrame env (mkClosure (blocks (store w)) g true) ray) w)%list.
Proof.
  rewrite frame_eq. unfold events.
  set (c := mkClosure (blocks (store w)) g true).
  frame_cases env c ray w; try discriminate; split_frame;
    rewrite ?skipn_length_app; reflexivity.
Qed.

Lemma frame_prevGesture env g ray w : prevGesture (snd (frame env g ray w)) = g.
Proof.
  rewrite frame_eq.
  set (c := mkClosure (blocks (store w)) g true).
  assert (Hc : c_gesture c = g) by reflexivity.
  frame_cases env c ray w; try discriminate; split_frame; congruence.
Qed.

Lemma grabs_app (l r : list Action) : grabs (l ++ r) = (grabs l + grabs r)%nat.
Proof. unfold grabs. now rewrite filter_app, length_app. Qed.

Lemma frame_grabs env g ray w :
  grabs (events (useFrame env (mkClosure (blocks (store w)) g true) ray) w) =
  if gesture_eqb g PINCH && negb (gesture_eqb (prevGesture w) PINCH)
     && truthy (selectedBlockId (store w))
  then 1%nat else 0%nat.
Proof. now rewrite useFrame_grabs. Qed.

(** C2.  Fed the gestures NONE, PINCH, PINCH, PINCH, NONE, PINCH with the
    hand present and an id selected at the start of every frame, the
    interaction loop issues exactly two grab events, whatever the rays and
    the world it starts from.  In general a hand-present frame issues one
    grab event when its gesture is PINCH, the previous one is not and an id
    is selected, and none otherwise; and a frame whose gesture repeats the
    previous one calls no action other than a selection update. *)
Theorem C2_edge_detection env :
  (forall r1 r2 r3 r4 r5 r6 w,
      Forall (fun v => truthy (selectedBlockId (store v)) = true)
        (run env [(NONE, r1); (PINCH, r2); (PINCH, r3); (PINCH, r4);
                  (NONE, r5); (PINCH, r6)] w) ->
      exists evs,
        trace (runEnd env [(NONE, r1); (PINCH, r2); (PINCH, r3); (PINCH, r4);
                           (NONE, r5); (PINCH, r6)] w) = (trace w ++ evs)%list /\
        grabs evs = 2%nat) /\
  (forall c ray w,
      c_handPresent c = true ->
      grabs (events (useFrame env c ray) w) =
      if gesture_eqb (c_gesture c) PINCH
         && negb (gesture_eqb (prevGesture w) PINCH)
         && truthy (selectedBlockId (store w))
      then 1%nat else 0%nat) /\
  (forall c ray w,
      c_handPresent c = true -> c_gesture c = prevGesture w ->
      forallb isSelect (events (useFrame env c ray) w) = true).
Proof.
  split; [|split; [apply useFrame_grabs|apply useFrame_repeat]].
  intros r1 r2 r3 r4 r5 r6 w H. cbn [run runEnd] in *.
  set (w1 := snd (frame env NONE r1 w)) in *.
  set (w2 := snd (frame env PINCH r2 w1)) in *.
  set (w3 := snd (frame env PINCH r3 w2)) in *.
  set (w4 := snd (frame env PINCH r4 w3)) in *.
  set (w5 := snd (frame env NONE r5 w4)) in *.
  inversion_clear H as [|? ? _ H1].
  inversion_clear H1 as [|? ? S1 H2].
  inversion_clear H2 as [|? ? _ H3].
  inversion_clear H3 as [|? ? _ H4].
  inversion_clear H4 as [|? ? _ H5].
  inversion_clear H5 as [|? ? S5 _].
  eexists. split.
  - rewrite frame_trace. fold w5. unfold w5 at 1. rewrite frame_trace. fold w4.
    unfold w4 at 1. rewrite frame_trace. fold w3. unfold w3 at 1.
    rewrite frame_trace. fold w2. unfold w2 at 1. rewrite frame_trace. fold w1.
    unfold w1 at 1. rewrite frame_trace. rewrite <- !app_assoc. reflexivity.
  - rewrite !grabs_app, !frame_grabs.
    unfold w5 at 1. rewrite frame_prevGesture.
    unfold w3 at 1. rewrite frame_prevGesture.
    unfold w2 at 1. rewrite frame_prevGesture.
    unfold w1 at 1. rewrite frame_prevGesture.
    rewrite S1, S5. reflexivity.
Qed.

Lemma C2_witness :
  exists evs,
    trace (runEnd sampleEnv
             [(NONE, rayNear); (PINCH, rayNear); (PINCH, rayNear); (PINCH, rayNear);
              (NONE, rayNear); (PINCH, rayNear)] wSelected)
    = (trace wSelected ++ evs)%list /\
    grabs evs = 2%nat.
Proof.
  apply (proj1 (C2_edge_detection sampleEnv)).
  vm_compute. repeat constructor.
Defined.

Lemma findBlock_id i bs b : findBlock i bs = Some b -> BlockData.id b = i.
Proof.
  unfold findBlock. intros H. apply find_some in H.
  now apply String.eqb_eq.
Qed.



(** C5 as stated fails on the id: in [wThumbOnCopy] the selected block is a
    copy whose id is the token "0.i"; [Math.random] returns 1/2 again, and
    the block the frame adds has the same id as its source. *)
Lemma C5_counterexample :
  reachable sampleEnv wThumbOnCopy /\
  handPresent (store wThumbOnCopy) = true /\
  gesture (store wThumbOnCopy) = THUMBS_UP /\
  prevGesture wThumbOnCopy = OPEN_PALM /\
  selectedBlockId (store wThumbOnCopy) = Some "0.i" /\
  blockIds (store wThumbOnCopy)
  = ["block-0"; "block-1"; "block-2"; "block-3"; "block-4"; "block-5";
     "block-6"; "block-7"; "block-8"; "block-9"; "block-10"; "block-11";
     "0.i"] /\
  blockIds (store (frameStep rayAtCopy wThumbOnCopy))
  = ["block-0"; "block-1"; "block-2"; "block-3"; "block-4"; "block-5";
     "block-6"; "block-7"; "block-8"; "block-9"; "block-10"; "block-11";
     "0.i"; "0.i"].
Proof.
  split; [exact wThumbOnCopy_reachable|]. vm_compute. repeat split.
Qed.

(** C5, amended.  In a reachable world, on a frame that runs on the blocks
    of the store with the hand present, gesture THUMBS_UP and a different
    previous gesture, while [b] is the block carrying the selected id: one block is appended to the blocks,
    which are otherwise unchanged; its id is the token
    [Math.random().toString(36)] drawn in this frame (nothing compares it
    with the ids in use), its colour, scale and rotation are those of [b]
    and its position is the position of [b] plus (1.5, 0, 0). *)
Theorem C5_duplicate env c ray w i b :
  (forall q, toString36 env q <> "") ->
  reachable env w ->
  c_blocks c = blocks (store w) ->
  c_handPresent c = true -> c_gesture c = THUMBS_UP ->
  prevGesture w <> THUMBS_UP ->
  selectedBlockId (store w) = Some i ->
  findBlock i (blocks (store w)) = Some b ->
  let w' := snd (useFrame env c ray w) in
  exists nb,
    blocks (store w') = (blocks (store w) ++ [nb])%list /\
    BlockData.id nb = toString36 env (mathRandom env (randomCalls w)) /\
    BlockData.color nb = BlockData.color b /\
    BlockData.scale nb = BlockData.scale b /\
    BlockData.rotation nb = BlockData.rotation b /\
    BlockData.position nb =
      (vx (BlockData.position b) + 1.5,
       vy (BlockData.position b),
       vz (BlockData.position b)) /\
    events (useFrame env c ray) w = [AddBlock nb].
Proof.
  intros Hts Hr Hc Hp Hg Hprev Hs Hb w'. subst w'.
  assert (Ht := reachable_selected_truthy env w i Hts Hr Hs).
  assert (E := useFrame_thumbs env c ray w Hp Hg).
  apply gesture_eqb_neq in Hprev. rewrite Ht, Hprev, Hs, Hc in E.
  cbn [andb negb idOf] in E. rewrite Hb in E.
  exists (duplicate env b w). rewrite E.
  repeat split. apply events_app. rewrite E. reflexivity.
Qed.

Lemma C5_witness :
  exists nb,
    blocks (store (frameStep rayNear wThumb)) = (blocks (store wThumb) ++ [nb])%list /\
    BlockData.id nb = "0.i".
Proof.
  destruct (C5_duplicate sampleEnv (render (store wThumb)) rayNear wThumb
              "block-0" (initialBlock sampleEnv 0)
              sampleToString36_nonempty wThumb_reachable eq_refl)
    as (nb & Hb & Hid & _).
  - vm_compute. reflexivity.
  - vm_compute. reflexivity.
  - vm_compute. discriminate.
  - vm_compute. reflexivity.
  - vm_compute. reflexivity.
  - exists nb. split; [exact Hb|]. rewrite Hid. vm_compute. reflexivity.
Defined.

(** ** Wave detection *)

Lemma pushWaveHistory_spec x w :
  (List.length (waveHistory w) <= 10)%nat ->
  waveHistory (snd (pushWaveHistory x w)) =
  skipn (List.length (waveHistory w ++ [x]) - 10) (waveHistory w ++ [x]).
Proof.
  intros H. unfold pushWaveHistory, bind, getWaveHistory, setWaveHistory.
  cbn [snd waveHistory]. rewrite length_app. cbn [List.length].
  destruct (Nat.ltb_spec 10 (List.length (waveHistory w) + 1)) as [L|L].
  - replace (List.length (waveHistory w) + 1 - 10)%nat with 1%nat by lia.
    destruct (waveHistory w ++ [x])%list; reflexivity.
  - replace (List.length (waveHistory w) + 1 - 10)%nat with 0%nat by lia.
    reflexivity.
Qed.

Lemma skipn_skipn_app {A : Type} (k : nat) (l r : list A) :
  (k <= List.length l)%nat ->
  (skipn k l ++ r)%list = skipn k (l ++ r).
Proof.
  revert l. induction k as [|k IH]; intros l H; [reflexivity|].
  destruct l as [|a l]; cbn in *; [lia|]. apply IH. lia.
Qed.

Lemma feed_spec xs : forall w,
  (List.length (waveHistory w) <= 10)%nat ->
  waveHistory (feed xs w) =
  skipn (List.length (waveHistory w ++ xs) - 10) (waveHistory w ++ xs).
Proof.
  induction xs as [|x xs IH]; intros w H.
  - cbn. rewrite app_nil_r. replace (_ - 10)%nat with 0%nat by lia. reflexivity.
  - cbn [feed fold_left]. fold (feed xs (snd (pushWaveHistory x w))).
    assert (E := pushWaveHistory_spec x w H).
    set (k := (List.length (waveHistory w ++ [x]) - 10)%nat) in *.
    assert (Hk : (k <= List.length (waveHistory w ++ [x]))%nat) by (subst k; lia).
    rewrite IH; rewrite E.
    + rewrite (skipn_skipn_app k _ xs Hk). rewrite <- app_assoc. cbn [app].
      rewrite skipn_skipn. f_equal. rewrite length_skipn.
      clear E Hk. subst k. rewrite !length_app. cbn [List.length]. lia.
    + rewrite length_skipn. clear E Hk. subst k. rewrite length_app.
      cbn [List.length]. lia.
Qed.

Lemma nth_last_default (h : list Q) :
  nth (List.length h - 1) h 0 = last h 0.
Proof.
  induction h as [|a h IH]; [reflexivity|].
  destruct h as [|b h]; [reflexivity|].
  change (last (a :: b :: h) 0) with (last (b :: h) 0). rewrite <- IH.
  cbn [List.length]. rewrite !Nat.sub_succ, !Nat.sub_0_r. reflexivity.
Qed.

Lemma Qltb_lt (a b : Q) : Qltb a b = true <-> a < b.
Proof.
  unfold Qltb. rewrite negb_true_iff. split.
  - intros H. apply Qnot_le_lt. intros L. apply Qle_bool_iff in L. congruence.
  - intros H. destruct (Qle_bool b a) eqn:E; [|reflexivity].
    apply Qle_bool_iff in E. apply Qlt_not_le in H. contradiction.
Qed.

(** The tracker pushes the palm X of the hand it sees and reports WAVE
    exactly when the detector fires on the updated history. *)
Lemma predictWebcam_wave env results lm rest w :
  landmarks results = lm :: rest ->
  let palmX := (fst (lm 0%nat) + fst (lm 5%nat) + fst (lm 17%nat)) / 3 in
  let w' := snd (predictWebcam env results w) in
  waveHistory w' = waveHistory (snd (pushWaveHistory palmX w)) /\
  (gesture (store w') = WAVE <-> calculateWave (waveHistory w') = true).
Proof.
  intros H palmX w'. subst w' palmX. unfold predictWebcam. rewrite H.
  cbn -[Nat.ltb calculateWave Qdiv Qplus].
  match goal with
  | |- context [calculateWave ?h] => destruct (calculateWave h) eqn:Ew
  end; cbn -[Nat.ltb calculateWave Qdiv Qplus].
  - rewrite Ew. repeat split.
  - repeat (match goal with
            | |- context [if ?b then _ else _] => destruct b
            end; cbn -[Nat.ltb calculateWave Qdiv Qplus]);
      rewrite Ew; (split; [reflexivity|split; discriminate]).
Qed.

(** C8 as stated fails on short buffers: after the samples 0.1 and 0.9 the
    buffer is [0.1; 0.9], its first and last samples differ by more than
    0.4, and the detector answers false. *)
Lemma C8_counterexample :
  waveHistory (feed [0.1; 0.9] (initialWorld sampleEnv)) = [0.1; 0.9] /\
  0.4 < Qabs (0.1 - 0.9) /\
  calculateWave [0.1; 0.9] = false.
Proof. split; [reflexivity|split; [reflexivity|reflexivity]]. Qed.

(** C8, amended.  The wave history holds the 10 latest palm-X samples (the
    oldest is dropped on overflow).  On a buffer of at least 5 samples the
    detector fires exactly when the first and last samples differ by more
    than 0.4 in absolute value; on a shorter buffer it never fires.  The
    tracker reports WAVE exactly when the detector fires on the updated
    buffer.  The history 0.1, 0.15, 0.2, 0.3, 0.55 fires and 0.1, 0.15, 0.2, 0.25, 0.3
    does not. *)
Theorem C8_wave_detection :
  (forall xs w, waveHistory w = [] ->
                waveHistory (feed xs w) = skipn (List.length xs - 10) xs) /\
  (forall h, (5 <= List.length h)%nat ->
             (calculateWave h = true <-> 0.4 < Qabs (hd 0 h - last h 0))) /\
  (forall h, (List.length h < 5)%nat -> calculateWave h = false) /\
  (forall env results lm rest w,
      landmarks results = lm :: rest ->
      (gesture (store (snd (predictWebcam env results w))) = WAVE <->
       calculateWave (waveHistory (snd (predictWebcam env results w))) = true)) /\
  calculateWave [0.1; 0.15; 0.2; 0.3; 0.55] = true /\
  calculateWave [0.1; 0.15; 0.2; 0.25; 0.3] = false.
Proof.
  split; [|split; [|split; [|split; [|split; reflexivity]]]];
    [| | |intros env results lm rest w H;
          apply (predictWebcam_wave env results lm rest w H)].
  - intros xs w H. rewrite feed_spec; rewrite H; [reflexivity|cbn; lia].
  - intros h H. unfold calculateWave.
    destruct (Nat.ltb_spec (List.length h) 5) as [L|_]; [lia|].
    rewrite nth_last_default. destruct h as [|a h]; [cbn in H; lia|].
    cbn [nth hd]. apply Qltb_lt.
  - intros h H. unfold calculateWave.
    destruct (Nat.ltb_spec (List.length h) 5) as [_|L]; [reflexivity|lia].
Qed.

Lemma C8_witness :
  waveHistory (feed [1; 2; 3; 4; 5; 6; 7; 8; 9; 10; 11; 12] (initialWorld sampleEnv))
  = [3; 4; 5; 6; 7; 8; 9; 10; 11; 12].
Proof.
  apply (proj1 C8_wave_detection
           [1; 2; 3; 4; 5; 6; 7; 8; 9; 10; 11; 12] (initialWorld sampleEnv)).
  reflexivity.
Defined.

(** ** Particle retirement *)

Lemma age_test (z : Z) : Qltb 2 (inject_Z z / 1000) = true <-> (2000 < z)%Z.
Proof.
  rewrite Qltb_lt. unfold Qlt, Qdiv, Qmult, Qinv, inject_Z. cbn. lia.
Qed.

Lemma particlesFrame_expired env d w :
  (2000 < dateNow env (clockCalls w) - ParticleData.createdAt d)%Z ->
  store (snd (particlesFrame env true d w)) = clearParticles (ParticleData.id d) (store w).
Proof.
  intros H. rewrite particlesFrame_store. apply age_test in H. rewrite H. reflexivity.
Qed.

Lemma particlesFrame_young env d w :
  (dateNow env (clockCalls w) - ParticleData.createdAt d <= 2000)%Z ->
  store (snd (particlesFrame env true d w)) = store w.
Proof.
  intros H. rewrite particlesFrame_store.
  destruct (Qltb 2 _) eqn:E; [|reflexivity]. apply age_test in E. lia.
Qed.

Lemma particlesFrame_keeps env d p w :
  ParticleData.id d <> ParticleData.id p ->
  In p (particles (store w)) ->
  In p (particles (store (snd (particlesFrame env true d w)))).
Proof.
  intros Hne Hin. rewrite particlesFrame_store. destruct (_ && _); [|exact Hin].
  cbn. apply filter_In. split; [exact Hin|].
  destruct (String.eqb_spec (ParticleData.id p) (ParticleData.id d)) as [E|_];
    [congruence|reflexivity].
Qed.

Lemma sweep_keeps env p ds : forall w,
  Forall (fun d => ParticleData.id d <> ParticleData.id p) ds ->
  In p (particles (store w)) ->
  In p (particles (store (sweep env ds w))).
Proof.
  induction ds as [|d ds IH]; intros w Hall Hin; [exact Hin|].
  inversion_clear Hall as [|? ? Hd Hds]. cbn [sweep fold_left].
  apply IH; [exact Hds|]. now apply particlesFrame_keeps.
Qed.

(** C9 as stated fails when two particles carry the same token: in
    [wTwoBursts] all forty ids are "0.i"; at time 2001 the frame of the
    first particle, spawned at time 0, clears them all, the twenty spawned
    at time 1000 included, 1.001 s after their spawn. *)
Lemma C9_counterexample :
  reachable sampleEnv wTwoBursts /\
  map ParticleData.createdAt (particles (store wTwoBursts))
  = (repeat 0%Z 20 ++ repeat 1000%Z 20)%list /\
  map ParticleData.id (particles (store wTwoBursts)) = repeat "0.i" 40 /\
  ParticleData.createdAt (oldestParticle wTwoBursts) = 0%Z /\
  dateNow sampleEnv (clockCalls wTwoBursts) = 2001%Z /\
  particles (store (snd (particlesFrame sampleEnv true (oldestParticle wTwoBursts)
                           wTwoBursts))) = [].
Proof.
  split; [exact wTwoBursts_reachable|]. vm_compute. repeat split.
Qed.

(** C9, amended.  The frame of a mounted particle [d] reads the clock and
    looks at the age of [d] alone: up to 2 s it leaves the store as it is,
    beyond 2 s it calls [clearParticles] with the id of [d].  So a particle
    [p] of the store survives the frame of every particle whose id differs
    from its own, and any number of such frames, whatever the spawn times
    and the clock; it survives its own frame 1.9 s after its spawn; and
    after its own frame 2.1 s after its spawn (or at any age beyond 2 s) no
    particle with its id is left. *)
Theorem C9_particle_retirement env d p w :
  In p (particles (store w)) ->
  let t := dateNow env (clockCalls w) in
  let w' := snd (particlesFrame env true d w) in
  ((t - ParticleData.createdAt d <= 2000)%Z -> store w' = store w) /\
  ((2000 < t - ParticleData.createdAt d)%Z ->
     store w' = clearParticles (ParticleData.id d) (store w)) /\
  (ParticleData.id d <> ParticleData.id p -> In p (particles (store w'))) /\
  (forall ds, Forall (fun x => ParticleData.id x <> ParticleData.id p) ds ->
              In p (particles (store (sweep env ds w)))) /\
  (d = p -> (t = ParticleData.createdAt p + 1900)%Z -> In p (particles (store w'))) /\
  (d = p -> (t = ParticleData.createdAt p + 2100)%Z -> ~ In p (particles (store w'))) /\
  (d = p -> (2000 < t - ParticleData.createdAt p)%Z ->
     forall x, In x (particles (store w')) -> ParticleData.id x <> ParticleData.id p).
Proof.
  intros Hin t w'. subst t w'.
  assert (Hgone : forall x,
             In x (particles (clearParticles (ParticleData.id d) (store w))) ->
             ParticleData.id x <> ParticleData.id d).
  { intros x Hx. cbn in Hx. apply filter_In in Hx. destruct Hx as [_ Hx].
    intros E. rewrite E, String.eqb_refl in Hx. discriminate Hx. }
  split; [apply particlesFrame_young|].
  split; [apply particlesFrame_expired|].
  split; [|split; [|split; [|split]]].
  - intros Hne. now apply particlesFrame_keeps.
  - intros ds Hds. now apply sweep_keeps.
  - intros -> Ht. rewrite particlesFrame_young; [exact Hin|lia].
  - intros -> Ht. rewrite particlesFrame_expired; [|lia].
    intros Hp. now apply (Hgone p Hp).
  - intros -> Ht x Hx. rewrite particlesFrame_expired in Hx; [|lia].
    now apply Hgone.
Qed.

Lemma C9_witness :
  In particleB
    (particles (store (snd (particlesFrame sampleEnv true particleA wTwoParticles)))) /\
  ~ In particleA
    (particles (store (snd (particlesFrame sampleEnv true particleA wTwoParticles)))).
Proof.
  split.
  - refine (proj1 (proj2 (proj2
              (C9_particle_retirement sampleEnv particleA particleB wTwoParticles _))) _).
    + right. left. reflexivity.
    + discriminate.
  - intros Hin.
    refine (proj2 (proj2 (proj2 (proj2 (proj2 (proj2
              (C9_particle_retirement sampleEnv particleA particleA wTwoParticles _))))))
              eq_refl _ particleA Hin eq_refl).
    + left. reflexivity.
    + vm_compute. reflexivity.
Defined.

(** ** No dangling ids *)

Lemma useFrame_selects_current env c ray w i :
  In (SetSelectedBlock (Some i)) (events (useFrame env c ray) w) ->
  In i (map BlockData.id (c_blocks c)).
Proof.
  unfold events.
  frame_cases env c ray w; split_frame; rewrite ?skipn_length_app;
    cbn [In]; intros H; repeat (destruct H as [H|H]); try discriminate H;
    try contradiction.
  all: injection H as H; now apply findClosest_In in H.
Qed.

Lemma removeBlock_no_dangling i s : no_dangling s -> no_dangling (removeBlock i s).
Proof.
  intros [Hs Hg]. unfold no_dangling, names_block. rewrite removeBlock_ids. cbn.
  split; intros j Hj.
  - destruct (id_eqb (selectedBlockId s) (Some i)) eqn:E; [discriminate Hj|].
    apply filter_In. split; [now apply Hs|].
    rewrite Hj in E. cbn in E. now rewrite E.
  - destruct (id_eqb (grabbedBlockId s) (Some i)) eqn:E; [discriminate Hj|].
    apply filter_In. split; [now apply Hg|].
    rewrite Hj in E. cbn in E. now rewrite E.
Qed.

Lemma removeBlock_clears i s :
  selectedBlockId (removeBlock i s) <> Some i /\
  grabbedBlockId (removeBlock i s) <> Some i.
Proof.
  cbn. split.
  - destruct (id_eqb (selectedBlockId s) (Some i)) eqn:E; [discriminate|].
    intros H. rewrite H in E. cbn in E. rewrite String.eqb_refl in E. discriminate E.
  - destruct (id_eqb (grabbedBlockId s) (Some i)) eqn:E; [discriminate|].
    intros H. rewrite H in E. cbn in E. rewrite String.eqb_refl in E. discriminate E.
Qed.

(** C10.  In every world the program reaches, a non-null [selectedBlockId]
    or [grabbedBlockId] is the id of a block of the store.  A frame of the
    interaction loop that runs on the blocks of the store only ever selects
    the id of one of them; and [removeBlock], in its one update, leaves neither
    pointer on the removed id and keeps the pointers on ids of blocks. *)
Theorem C10_no_dangling_ids env :
  (forall w, reachable env w ->
     (forall i, selectedBlockId (store w) = Some i -> In i (blockIds (store w))) /\
     (forall i, grabbedBlockId (store w) = Some i -> In i (blockIds (store w)))) /\
  (forall c w ray i,
     c_blocks c = blocks (store w) ->
     In (SetSelectedBlock (Some i)) (events (useFrame env c ray) w) ->
     In i (blockIds (store w))) /\
  (forall i s,
     selectedBlockId (removeBlock i s) <> Some i /\
     grabbedBlockId (removeBlock i s) <> Some i /\
     (no_dangling s -> no_dangling (removeBlock i s))).
Proof.
  split; [|split].
  - intros w Hr. destruct (reachable_invariant env w Hr) as (_ & Hn & _). exact Hn.
  - intros c w ray i Hc H. apply useFrame_selects_current in H.
    unfold blockIds. now rewrite <- Hc.
  - intros i s. destruct (removeBlock_clears i s) as [H1 H2].
    split; [exact H1|split; [exact H2|apply removeBlock_no_dangling]].
Qed.

Lemma C10_witness :
  selectedBlockId (store wGrabbed) = Some "block-0" /\
  In "block-0" (blockIds (store wGrabbed)).
Proof.
  split; [vm_compute; reflexivity|].
  apply (proj1 (proj1 (C10_no_dangling_ids sampleEnv) wGrabbed wGrabbed_reachable)).
  vm_compute. reflexivity.
Defined.

(** ** More on the code: the search for the closest block *)

(** What the accumulator of the search knows about the blocks [seen]. *)
Lemma closer_fold ray : forall bs seen acc,
  match acc with
  | (None, None) => forall p, In p seen -> ~ ray (BlockData.position p) < 2
  | (Some i, Some d) =>
      exists b, In b seen /\ BlockData.id b = i /\ d = ray (BlockData.position b) /\
                d < 2 /\ forall p, In p seen -> d <= ray (BlockData.position p)
  | _ => False
  end ->
  match fold_left (closer ray) bs acc with
  | (None, None) => forall p, In p (seen ++ bs) -> ~ ray (BlockData.position p) < 2
  | (Some i, Some d) =>
      exists b, In b (seen ++ bs) /\ BlockData.id b = i /\
                d = ray (BlockData.position b) /\
                d < 2 /\ forall p, In p (seen ++ bs) -> d <= ray (BlockData.position p)
  | _ => False
  end.
Proof.
  induction bs as [|x bs IH]; intros seen acc H.
  - cbn. rewrite app_nil_r. exact H.
  - cbn [fold_left].
    replace (seen ++ x :: bs)%list with ((seen ++ [x]) ++ bs)%list
      by (rewrite <- app_assoc; reflexivity).
    apply IH. unfold closer.
    destruct acc as [[i|] [d|]]; cbn [snd]; try contradiction.
    + destruct H as (b & Hb & Hi & Hd & Hlt & Hmin).
      destruct (Qltb (ray (BlockData.position x)) 2) eqn:E2; cbn [andb].
      * destruct (Qltb (ray (BlockData.position x)) d) eqn:Ed.
        -- apply Qltb_lt in E2. apply Qltb_lt in Ed.
           exists x. split; [apply in_or_app; right; now left|].
           split; [reflexivity|split; [reflexivity|split; [exact E2|]]].
           intros p Hp. apply in_app_or in Hp. destruct Hp as [Hp|[<-|[]]].
           ++ specialize (Hmin p Hp). lra.
           ++ lra.
        -- exists b. split; [apply in_or_app; now left|].
           split; [exact Hi|split; [exact Hd|split; [exact Hlt|]]].
           intros p Hp. apply in_app_or in Hp. destruct Hp as [Hp|[<-|[]]].
           ++ now apply Hmin.
           ++ apply Qnot_lt_le. intros L. apply Qltb_lt in L. congruence.
      * exists b. split; [apply in_or_app; now left|].
        split; [exact Hi|split; [exact Hd|split; [exact Hlt|]]].
        intros p Hp. apply in_app_or in Hp. destruct Hp as [Hp|[<-|[]]].
        -- now apply Hmin.
        -- assert (~ ray (BlockData.position x) < 2)
             by (intros L; apply Qltb_lt in L; congruence).
           lra.
    + destruct (Qltb (ray (BlockData.position x)) 2) eqn:E2; cbn [andb].
      * apply Qltb_lt in E2.
        exists x. split; [apply in_or_app; right; now left|].
        split; [reflexivity|split; [reflexivity|split; [exact E2|]]].
        intros p Hp. apply in_app_or in Hp. destruct Hp as [Hp|[<-|[]]].
        -- specialize (H p Hp). lra.
        -- lra.
      * intros p Hp. apply in_app_or in Hp. destruct Hp as [Hp|[<-|[]]].
        -- now apply H.
        -- intros L. apply Qltb_lt in L. congruence.
Qed.

(** X1.  When the search over the blocks answers an id, some block with
    that id lies at squared distance below 2 from the ray, and no block is
    closer to the ray than it. *)
Theorem X1_findClosest_nearest ray bs i :
  findClosest ray bs = Some i ->
  exists b, In b bs /\ BlockData.id b = i /\
            ray (BlockData.position b) < 2 /\
            forall p, In p bs -> ray (BlockData.position b) <= ray (BlockData.position p).
Proof.
  unfold findClosest. intros H.
  assert (F := closer_fold ray bs [] (None, None)).
  destruct (fold_left (closer ray) bs (None, None)) as [[j|] [d|]];
    cbn in H; try discriminate H.
  - injection H as ->.
    destruct F as (b & Hb & Hi & Hd & Hlt & Hmin); [intros p []|].
    exists b. rewrite <- Hd. cbn in Hb, Hmin. auto.
  - exfalso. apply F. intros p [].
Qed.

Lemma X1_witness :
  exists b, In b (blocks (store wThumbOnCopy)) /\ BlockData.id b = "0.i" /\
            rayAtCopy (BlockData.position b) < 2 /\
            forall p, In p (blocks (store wThumbOnCopy)) ->
                      rayAtCopy (BlockData.position b) <= rayAtCopy (BlockData.position p).
Proof.
  apply (X1_findClosest_nearest rayAtCopy (blocks (store wThumbOnCopy)) "0.i").
  vm_compute. reflexivity.
Defined.

(** X2.  The search answers null exactly when every block is at squared
    distance 2 or more from the ray (an empty scene included). *)
Theorem X2_findClosest_none ray bs :
  findClosest ray bs = None <->
  forall p, In p bs -> 2 <= ray (BlockData.position p).
Proof.
  unfold findClosest.
  assert (F := closer_fold ray bs [] (None, None)).
  destruct (fold_left (closer ray) bs (None, None)) as [[j|] [d|]]; cbn [fst].
  - split; [discriminate|]. intros H.
    destruct F as (b & Hb & _ & Hd & Hlt & _); [intros p []|].
    cbn in Hb. specialize (H b Hb). subst d. lra.
  - exfalso. apply F. intros p [].
  - exfalso. apply F. intros p [].
  - split; [|reflexivity]. intros _ p Hp.
    apply Qnot_lt_le. apply F; [intros q []|exact Hp].
Qed.

(** X3.  Among the blocks within reach the first of the closest wins: a
    block strictly closer to the ray than every block before it in the
    list, at squared distance below 2, and at least as close as every block
    after it, is the one selected. *)
Theorem X3_findClosest_first_wins ray pre b post :
  ray (BlockData.position b) < 2 ->
  (forall p, In p pre -> ray (BlockData.position b) < ray (BlockData.position p)) ->
  (forall p, In p post -> ray (BlockData.position b) <= ray (BlockData.position p)) ->
  findClosest ray (pre ++ b :: post) = Some (BlockData.id b).
Proof.
  intros Hlt Hpre Hpost. unfold findClosest. rewrite fold_left_app. cbn [fold_left].
  assert (Hb : closer ray (fold_left (closer ray) pre (None, None)) b
               = (Some (BlockData.id b), Some (ray (BlockData.position b)))).
  { assert (F := closer_fold ray pre [] (None, None)).
    destruct (fold_left (closer ray) pre (None, None)) as [[j|] [d|]];
      unfold closer; cbn [snd].
    - destruct F as (x & Hx & _ & Hd & _ & _); [intros p []|].
      cbn in Hx. specialize (Hpre x Hx). rewrite <- Hd in Hpre.
      apply Qltb_lt in Hlt. apply Qltb_lt in Hpre. now rewrite Hlt, Hpre.
    - exfalso. apply F. intros p [].
    - exfalso. apply F. intros p [].
    - apply Qltb_lt in Hlt. now rewrite Hlt. }
  rewrite Hb. clear Hb Hpre.
  induction post as [|x post IH]; [reflexivity|].
  cbn [fold_left]. unfold closer at 2. cbn [snd]. cbv zeta.
  assert (Hx : Qltb (ray (BlockData.position x)) (ray (BlockData.position b)) = false).
  { destruct (Qltb _ _) eqn:E; [|reflexivity]. apply Qltb_lt in E.
    specialize (Hpost x (or_introl eq_refl)). lra. }
  rewrite Hx, andb_false_r. apply IH. intros p Hp. apply Hpost. now right.
Qed.

Lemma X3_witness :
  findClosest rayAtCopy
    ([initialBlock sampleEnv 0] ++ copyOfBlock0 :: [initialBlock sampleEnv 1])
  = Some "0.i".
Proof.
  apply (X3_findClosest_first_wins rayAtCopy [initialBlock sampleEnv 0]
           copyOfBlock0 [initialBlock sampleEnv 1]).
  - reflexivity.
  - intros p [<-|[]]. reflexivity.
  - intros p [<-|[]]. discriminate.
Defined.

(** ** More on the code: the frame of [InteractionManager] *)

(** X4.  With the hand present, gesture OPEN_PALM or NONE and nothing
    grabbed, the frame leaves the selection on the block closest to the ray,
    or on null when no block is within reach; it calls at most
    [setSelectedBlock] and leaves the grab, the blocks and the particles. *)
Theorem X4_hover_selects_closest env c ray w :
  c_handPresent c = true ->
  c_gesture c = NONE \/ c_gesture c = OPEN_PALM ->
  grabbedBlockId (store w) = None ->
  let w' := snd (useFrame env c ray w) in
  selectedBlockId (store w') = findClosest ray (c_blocks c) /\
  grabbedBlockId (store w') = None /\
  blocks (store w') = blocks (store w) /\
  particles (store w') = particles (store w) /\
  forallb isSelect (events (useFrame env c ray) w) = true.
Proof.
  intros Hp Hg Hgr w'. subst w'.
  assert (Ht : truthy (grabbedBlockId (store w)) = false) by now rewrite Hgr.
  assert (E := useFrame_select env c ray w Hp Hg Ht).
  destruct (id_eqb (findClosest ray (c_blocks c)) (selectedBlockId (store w))) eqn:Eq.
  - apply id_eqb_eq in Eq.
    split; [rewrite E; cbn; now rewrite Eq|].
    split; [rewrite E; exact Hgr|].
    split; [rewrite E; reflexivity|split; [rewrite E; reflexivity|]].
    rewrite (events_app _ _ []); [reflexivity|now rewrite E].
  - split; [rewrite E; reflexivity|].
    split; [rewrite E; exact Hgr|].
    split; [rewrite E; reflexivity|split; [rewrite E; reflexivity|]].
    rewrite (events_app _ _ [SetSelectedBlock (findClosest ray (c_blocks c))]);
      [reflexivity|now rewrite E].
Qed.

Lemma X4_witness :
  selectedBlockId
    (store (snd (useFrame sampleEnv
                   (mkClosure (blocks (store (initialWorld sampleEnv))) OPEN_PALM true)
                   rayNear (initialWorld sampleEnv))))
  = Some "block-0".
Proof.
  refine (eq_trans
            (proj1 (X4_hover_selects_closest sampleEnv
                      (mkClosure (blocks (store (initialWorld sampleEnv))) OPEN_PALM true)
                      rayNear (initialWorld sampleEnv) eq_refl (or_intror eq_refl) eq_refl))
            _).
  vm_compute. reflexivity.
Defined.

(** X5.  Once something is grabbed, a frame with the hand present and a
    gesture other than OPEN_PALM and FIST keeps both the grab and the
    selection, wherever the ray points: relaxing the pinch does not drop
    the block. *)
Theorem X5_grab_persists env c ray w :
  reachable env w ->
  grabbedBlockId (store w) <> None ->
  c_handPresent c = true ->
  c_gesture c <> OPEN_PALM -> c_gesture c <> FIST ->
  let w' := snd (useFrame env c ray w) in
  grabbedBlockId (store w') = grabbedBlockId (store w) /\
  selectedBlockId (store w') = selectedBlockId (store w).
Proof.
  intros Hr Hgr Hp Hno Hnf w'. subst w'.
  assert (Ht := reachable_grabbed_truthy env w Hr Hgr).
  destruct (reachable_invariant env w Hr) as ([Hn|[Heq _]] & _); [contradiction|].
  frame_cases env c ray w; try discriminate; try contradiction; try congruence;
    split_frame; auto.
Qed.

Lemma X5_witness :
  grabbedBlockId
    (store (snd (useFrame sampleEnv (mkClosure (blocks (store wGrabbed)) NONE true)
                   rayAtCopy wGrabbed)))
  = grabbedBlockId (store wGrabbed).
Proof.
  refine (proj1 (X5_grab_persists sampleEnv
                   (mkClosure (blocks (store wGrabbed)) NONE true)
                   rayAtCopy wGrabbed wGrabbed_reachable _ eq_refl _ _)).
  - vm_compute. discriminate.
  - discriminate.
  - discriminate.
Defined.

Lemma setGrabbedBlock_same s :
  setGrabbedBlock (grabbedBlockId s) s = s.
Proof. destruct s; reflexivity. Qed.

(** X6.  A PINCH frame while something is grabbed leaves the store exactly
    as it is: the grab call that fires again on a new pinch writes the id
    that is grabbed already. *)
Theorem X6_regrab_changes_nothing env c ray w :
  reachable env w ->
  grabbedBlockId (store w) <> None ->
  c_handPresent c = true -> c_gesture c = PINCH ->
  store (snd (useFrame env c ray w)) = store w.
Proof.
  intros Hr Hgr Hp Hg.
  destruct (reachable_invariant env w Hr) as ([Hn|[Heq _]] & _); [contradiction|].
  rewrite (useFrame_pinch env c ray w Hp Hg).
  destruct (_ && _); cbn; [|reflexivity].
  rewrite <- Heq. apply setGrabbedBlock_same.
Qed.

Lemma X6_witness :
  store (snd (useFrame sampleEnv (render (store wPinchAgain)) rayNear wPinchAgain))
  = store wPinchAgain.
Proof.
  refine (X6_regrab_changes_nothing sampleEnv (render (store wPinchAgain)) rayNear
            wPinchAgain wPinchAgain_reachable _ _ _).
  - vm_compute. discriminate.
  - vm_compute. reflexivity.
  - vm_compute. reflexivity.
Defined.

(** X7.  A FIST or THUMBS_UP frame whose selected id names no block of the
    blocks the frame runs on (the block went away in the meantime, or
    nothing is selected) calls no action and leaves the store as it is. *)
Theorem X7_missing_block_is_skipped env c ray w :
  c_handPresent c = true ->
  c_gesture c = FIST \/ c_gesture c = THUMBS_UP ->
  (forall i, selectedBlockId (store w) = Some i -> findBlock i (c_blocks c) = None) ->
  store (snd (useFrame env c ray w)) = store w /\
  events (useFrame env c ray) w = [].
Proof.
  intros Hp Hg Hmiss.
  assert (Hnone : truthy (selectedBlockId (store w)) = true ->
                  findBlock (idOf (selectedBlockId (store w))) (c_blocks c) = None).
  { intros Ht. apply truthy_some in Ht. destruct Ht as (i & Hi & _).
    rewrite Hi. cbn. now apply Hmiss. }
  destruct Hg as [Hg|Hg].
  - assert (E := useFrame_fist env c ray w Hp Hg).
    destruct (truthy (selectedBlockId (store w))) eqn:Ht; cbn [andb] in E.
    + rewrite (Hnone eq_refl) in E.
      assert (E' : useFrame env c ray w = (tt, after w (store w) [] FIST 0 0))
        by (rewrite E; now destruct (negb _)).
      split; [now rewrite E'|apply events_app; now rewrite E'].
    + split; [now rewrite E|apply events_app; now rewrite E].
  - assert (E := useFrame_thumbs env c ray w Hp Hg).
    destruct (truthy (selectedBlockId (store w))) eqn:Ht; cbn [andb] in E.
    + rewrite (Hnone eq_refl) in E.
      assert (E' : useFrame env c ray w = (tt, after w (store w) [] THUMBS_UP 0 0))
        by (rewrite E; now destruct (negb _)).
      split; [now rewrite E'|apply events_app; now rewrite E'].
    + split; [now rewrite E|apply events_app; now rewrite E].
Qed.

Lemma X7_witness :
  store (snd (useFrame sampleEnv (mkClosure [] FIST true) rayNear wSelected))
  = store wSelected.
Proof.
  refine (proj1 (X7_missing_block_is_skipped sampleEnv (mkClosure [] FIST true)
                   rayNear wSelected eq_refl (or_introl eq_refl) _)).
  intros i _. reflexivity.
Defined.

Lemma useFrame_blocks_origin env c ray w b :
  In b (blocks (store (snd (useFrame env c ray w)))) ->
  In b (blocks (store w)) \/ exists src, In src (c_blocks c) /\ b = duplicate env src w.
Proof.
  frame_cases env c ray w; split_frame; intros Hb; try (now left).
  - left. cbn in Hb. apply filter_In in Hb. apply Hb.
  - cbn in Hb. apply in_app_or in Hb. destruct Hb as [Hb|[<-|[]]].
    + now left.
    + right. exists t. split; [|reflexivity].
      match goal with H : findBlock _ _ = Some _ |- _ => apply find_some in H; apply H end.
Qed.

(** X8.  A frame of the interaction loop never writes the hand state or the
    camera pan, never removes a particle (the particles before are a prefix
    of the particles after), and never moves a block: every block after the
    frame is a block from before or the copy made of one of the blocks the
    frame runs on. *)
Theorem X8_frame_footprint env c ray w :
  let s := store w in
  let s' := store (snd (useFrame env c ray w)) in
  handPresent s' = handPresent s /\
  cursorPosition s' = cursorPosition s /\
  gesture s' = gesture s /\
  rotation s' = rotation s /\
  cameraPan s' = cameraPan s /\
  (exists ps, particles s' = (particles s ++ ps)%list) /\
  (forall b, In b (blocks s') ->
             In b (blocks s) \/ exists src, In src (c_blocks c) /\ b = duplicate env src w).
Proof.
  cbv zeta.
  assert (Hb := useFrame_blocks_origin env c ray w). revert Hb.
  frame_cases env c ray w; split_frame; intros Hb;
    repeat (split; [reflexivity|]);
    (split; [first [now exists [] ; rewrite app_nil_r | eexists; reflexivity]|]);
    exact Hb.
Qed.

(** X9.  After a frame without a hand, the next frame with a hand can only
    select, whatever its gesture and the previous one: no grab, release,
    explosion or copy is called. *)
Theorem X9_after_hand_loss_only_select env c ray c' ray' w :
  c_handPresent c = false ->
  c_handPresent c' = true ->
  forallb isSelect (events (useFrame env c' ray') (snd (useFrame env c ray w))) = true.
Proof.
  intros Hp Hp'. rewrite (useFrame_absent env c ray w Hp). cbn [snd].
  set (w1 := mkWorld _ _ _ _ _ _ _ _).
  unfold events.
  frame_cases env c' ray' w1; try discriminate; subst w1; cbn [store setGrabbedBlock
    setSelectedBlock selectedBlockId grabbedBlockId truthy andb];
    split_frame; rewrite ?skipn_length_app; try reflexivity.
Qed.

Lemma X9_witness :
  forallb isSelect
    (events (useFrame sampleEnv (mkClosure (blocks (store wGrabbed)) PINCH true) rayNear)
       (snd (useFrame sampleEnv (mkClosure (blocks (store wGrabbed)) NONE false)
               rayNear wGrabbed))) = true.
Proof.
  apply (X9_after_hand_loss_only_select sampleEnv
           (mkClosure (blocks (store wGrabbed)) NONE false) rayNear
           (mkClosure (blocks (store wGrabbed)) PINCH true) rayNear wGrabbed);
    reflexivity.
Defined.

(** ** More on the code: what the refs keep across the whole program *)

Lemma floatingBlockFrame_refs env mounted data g gest target w :
  let w' := snd (floatingBlockFrame env mounted data g gest target w) in
  prevGesture w' = prevGesture w /\ waveHistory w' = waveHistory w.
Proof.
  unfold floatingBlockFrame. destruct mounted; cbn; [|now split].
  destruct (id_eqb g (Some (BlockData.id data)) && gesture_eqb gest PINCH); cbn;
    now split.
Qed.

Lemma particlesFrame_refs env mounted data w :
  let w' := snd (particlesFrame env mounted data w) in
  prevGesture w' = prevGesture w /\ waveHistory w' = waveHistory w.
Proof.
  unfold particlesFrame. destruct mounted; cbn; [|now split].
  destruct (Qltb 2 _); cbn; now split.
Qed.

Lemma useFrame_waveHistory env c ray w :
  waveHistory (snd (useFrame env c ray w)) = waveHistory w.
Proof. frame_cases env c ray w; split_frame; reflexivity. Qed.

Lemma predictWebcam_prevGesture env results w :
  prevGesture (snd (predictWebcam env results w)) = prevGesture w.
Proof.
  unfold predictWebcam. destruct (landmarks results) as [|lm rest]; [reflexivity|].
  cbn -[Nat.ltb calculateWave Qdiv Qplus].
  repeat (match goal with
          | |- context [if ?b then _ else _] => destruct b
          end; cbn -[Nat.ltb calculateWave Qdiv Qplus]); reflexivity.
Qed.

Lemma predictWebcam_history env results w :
  waveHistory (snd (predictWebcam env results w)) =
  match landmarks results with
  | lm :: _ => waveHistory (snd (pushWaveHistory (palmXOf lm) w))
  | [] => waveHistory w
  end.
Proof.
  destruct (landmarks results) as [|lm rest] eqn:E.
  - unfold predictWebcam. rewrite E. reflexivity.
  - apply (predictWebcam_wave env results lm rest w E).
Qed.

Lemma pushWaveHistory_bounded x w :
  history_bounded w -> history_bounded (snd (pushWaveHistory x w)).
Proof.
  unfold history_bounded. intros H. rewrite pushWaveHistory_spec by exact H.
  rewrite length_skipn, length_app. cbn [List.length]. lia.
Qed.

Lemma step_history_bounded env w w' :
  step env w w' -> history_bounded w -> history_bounded w'.
Proof.
  intros Hstep H.
  destruct Hstep as [c ray w Hc | mounted data target w _ | mounted data w _ | results w];
    unfold history_bounded in *.
  - now rewrite useFrame_waveHistory.
  - now rewrite (proj2 (floatingBlockFrame_refs env mounted data _ _ target w)).
  - now rewrite (proj2 (particlesFrame_refs env mounted data w)).
  - rewrite predictWebcam_history. destruct (landmarks results); [exact H|].
    now apply pushWaveHistory_bounded.
Qed.

(** X10.  In every world the program reaches the wave history holds at most
    ten samples, so the detector never compares palm positions more than
    nine video frames apart. *)
Theorem X10_wave_history_bounded env w :
  reachable env w -> (List.length (waveHistory w) <= 10)%nat.
Proof.
  induction 1 as [|w w' _ IH Hstep]; [cbn; lia|].
  now apply (step_history_bounded env w w').
Qed.

Lemma X10_witness : (List.length (waveHistory wTwoBursts) <= 10)%nat.
Proof. apply (X10_wave_history_bounded sampleEnv wTwoBursts wTwoBursts_reachable). Defined.

Lemma useFrame_release_armed env c ray w :
  pointers_ok (store w) -> release_armed w ->
  release_armed (snd (useFrame env c ray w)).
Proof.
  intros Hp Ha. unfold release_armed, pointers_ok in *.
  frame_cases env c ray w; split_frame; auto; try (right; discriminate).
  all: try (right; rewrite Hg; discriminate).
  all: try (left; destruct Hp as [Hp|[_ Hp]]; [exact Hp|discriminate Hp]).
  destruct Ha as [Ha|Ha]; [now left|].
  match goal with E : negb _ = false |- _ => apply negb_false_iff in E;
    apply gesture_eqb_eq in E end. contradiction.
Qed.

Lemma step_release_armed env w w' :
  step env w w' -> pointers_ok (store w) -> release_armed w -> release_armed w'.
Proof.
  intros Hstep Hp Ha.
  destruct Hstep as [c ray w Hc | mounted data target w _ | mounted data w _ | results w].
  - now apply useFrame_release_armed.
  - unfold release_armed in *.
    destruct (floatingBlockFrame_quiet env mounted data (grabbedBlockId (store w))
                (gesture (store w)) target w) as (_ & Hg & _).
    rewrite Hg, (proj1 (floatingBlockFrame_refs env mounted data _ _ target w)).
    exact Ha.
  - unfold release_armed in *.
    destruct (particlesFrame_quiet env mounted data w) as (_ & Hg & _).
    rewrite Hg, (proj1 (particlesFrame_refs env mounted data w)). exact Ha.
  - unfold release_armed in *.
    destruct (predictWebcam_quiet env results w) as (_ & Hg & _).
    rewrite Hg, predictWebcam_prevGesture. exact Ha.
Qed.

Lemma reachable_release_armed env w : reachable env w -> release_armed w.
Proof.
  induction 1 as [|w w' Hr IH Hstep]; [now left|].
  apply (step_release_armed env w w' Hstep); [|exact IH].
  apply (reachable_invariant env w Hr).
Qed.

(** X11.  Whenever something is grabbed, the next frame with the hand
    present and gesture OPEN_PALM releases it: in a reachable world the
    previous gesture is never OPEN_PALM while a block is grabbed, so the
    edge test of the release cannot fail. *)
Theorem X11_open_palm_always_releases env c ray w :
  reachable env w ->
  grabbedBlockId (store w) <> None ->
  c_handPresent c = true -> c_gesture c = OPEN_PALM ->
  prevGesture w <> OPEN_PALM /\
  grabbedBlockId (store (snd (useFrame env c ray w))) = None.
Proof.
  intros Hr Hgr Hp Hg.
  assert (Ht := reachable_grabbed_truthy env w Hr Hgr).
  destruct (reachable_release_armed env w Hr) as [Ha|Ha]; [contradiction|].
  split; [exact Ha|].
  rewrite (useFrame_palm_grabbed env c ray w Hp Hg Ht).
  apply gesture_eqb_neq in Ha. rewrite Ha. reflexivity.
Qed.

Lemma X11_witness :
  grabbedBlockId
    (store (snd (useFrame sampleEnv (mkClosure (blocks (store wGrabbed)) OPEN_PALM true)
                   rayNear wGrabbed))) = None.
Proof.
  refine (proj2 (X11_open_palm_always_releases sampleEnv
                   (mkClosure (blocks (store wGrabbed)) OPEN_PALM true)
                   rayNear wGrabbed wGrabbed_reachable _ eq_refl eq_refl)).
  vm_compute. discriminate.
Defined.

(** ** More on the code: the store actions *)

Lemma filter_keeps_all {A : Type} (f : A -> bool) (l : list A) :
  (forall x, In x l -> f x = true) -> filter f l = l.
Proof.
  induction l as [|a l IH]; intros H; [reflexivity|].
  cbn. rewrite (H a (or_introl eq_refl)). f_equal. apply IH.
  intros x Hx. apply H. now right.
Qed.

Lemma not_named_filter i (bs : list BlockData.t) :
  ~ In i (map BlockData.id bs) ->
  filter (fun b => negb (String.eqb (BlockData.id b) i)) bs = bs.
Proof.
  intros H. apply filter_keeps_all. intros x Hx.
  destruct (String.eqb_spec (BlockData.id x) i) as [E|_]; [|reflexivity].
  exfalso. apply H. rewrite <- E. now apply in_map.
Qed.

(** X12.  Adding a block whose id is not in use and then removing that id
    gives back the blocks as they were, and the whole store when neither
    pointer was on that id; a pointer that was on it is cleared. *)
Theorem X12_add_then_remove b s :
  ~ In (BlockData.id b) (blockIds s) ->
  blocks (removeBlock (BlockData.id b) (addBlock b s)) = blocks s /\
  (selectedBlockId s <> Some (BlockData.id b) ->
   grabbedBlockId s <> Some (BlockData.id b) ->
   removeBlock (BlockData.id b) (addBlock b s) = s) /\
  selectedBlockId (removeBlock (BlockData.id b) (addBlock b s)) <> Some (BlockData.id b) /\
  grabbedBlockId (removeBlock (BlockData.id b) (addBlock b s)) <> Some (BlockData.id b).
Proof.
  intros Hnew. destruct s as [hp cp g r bs ps sel gr pan].
  unfold blockIds in Hnew. cbn in Hnew.
  assert (Hb : filter (fun x => negb (String.eqb (BlockData.id x) (BlockData.id b)))
                 (bs ++ [b]) = bs).
  { rewrite filter_app. cbn. rewrite String.eqb_refl. cbn.
    rewrite app_nil_r. now apply not_named_filter. }
  split; [exact Hb|]. split.
  - intros Hs Hg. cbn in Hs, Hg. unfold removeBlock, addBlock.
    cbn [blocks selectedBlockId grabbedBlockId handPresent cursorPosition gesture
         rotation particles cameraPan]. rewrite Hb.
    destruct (id_eqb sel (Some (BlockData.id b))) eqn:Es;
      [apply id_eqb_eq in Es; contradiction|].
    destruct (id_eqb gr (Some (BlockData.id b))) eqn:Eg;
      [apply id_eqb_eq in Eg; contradiction|].
    reflexivity.
  - apply removeBlock_clears.
Qed.

Lemma X12_witness :
  removeBlock "0.i" (addBlock copyOfBlock0 (store wGrabbed)) = store wGrabbed.
Proof.
  refine (proj1 (proj2 (X12_add_then_remove copyOfBlock0 (store wGrabbed) _)) _ _).
  - vm_compute. intros H. repeat (destruct H as [H|H]; [discriminate H|]). exact H.
  - vm_compute. discriminate.
  - vm_compute. discriminate.
Defined.

(** X13.  [removeBlock] removes every block carrying the id (copies that
    share a token go together), is idempotent, and on an id that no block
    carries leaves the blocks as they are. *)
Theorem X13_removeBlock_behaviour i s :
  ~ In i (blockIds (removeBlock i s)) /\
  (forall b, In b (blocks (removeBlock i s)) <-> In b (blocks s) /\ BlockData.id b <> i) /\
  removeBlock i (removeBlock i s) = removeBlock i s /\
  (~ In i (blockIds s) -> blocks (removeBlock i s) = blocks s).
Proof.
  split; [|split; [|split]].
  - rewrite removeBlock_ids. intros H. apply filter_In in H.
    destruct H as [_ H]. rewrite String.eqb_refl in H. discriminate H.
  - intros b. cbn. rewrite filter_In. split; intros [H1 H2]; (split; [exact H1|]).
    + intros E. rewrite E, String.eqb_refl in H2. discriminate H2.
    + destruct (String.eqb_spec (BlockData.id b) i); [contradiction|reflexivity].
  - destruct s as [hp cp g r bs ps sel gr pan]. unfold removeBlock.
    cbn [blocks selectedBlockId grabbedBlockId handPresent cursorPosition gesture
         rotation particles cameraPan].
    assert (Hf : forall l : list BlockData.t,
               filter (fun b => negb (String.eqb (BlockData.id b) i))
                 (filter (fun b => negb (String.eqb (BlockData.id b) i)) l)
               = filter (fun b => negb (String.eqb (BlockData.id b) i)) l).
    { intros l. apply filter_keeps_all. intros x Hx. apply filter_In in Hx. apply Hx. }
    rewrite Hf.
    destruct (id_eqb sel (Some i)) eqn:Es; destruct (id_eqb gr (Some i)) eqn:Eg;
      cbn; rewrite ?Es, ?Eg; reflexivity.
  - intros H. cbn. now apply not_named_filter.
Qed.

(** X14.  [updateBlockPosition] keeps the number, the order and the ids of
    the blocks; it gives the position to every block carrying the id and,
    called without a rotation, keeps their rotation, colour and scale; the
    blocks with another id are untouched; and on an id that no block
    carries it leaves the whole store as it is. *)
Theorem X14_updateBlockPosition_behaviour i pos s :
  blockIds (updateBlockPosition i pos None s) = blockIds s /\
  List.length (blocks (updateBlockPosition i pos None s)) = List.length (blocks s) /\
  (forall k b, nth_error (blocks s) k = Some b ->
     nth_error (blocks (updateBlockPosition i pos None s)) k =
     Some (if String.eqb (BlockData.id b) i
           then BlockData.mk (BlockData.id b) pos (BlockData.rotation b)
                  (BlockData.color b) (BlockData.scale b)
           else b)) /\
  (~ In i (blockIds s) -> updateBlockPosition i pos None s = s).
Proof.
  split; [apply updateBlockPosition_ids|].
  split; [cbn; apply length_map|].
  split.
  - intros k b H. cbn. rewrite nth_error_map, H. reflexivity.
  - intros H. destruct s as [hp cp g r bs ps sel gr pan].
    unfold blockIds in H. cbn [blocks] in H. unfold updateBlockPosition.
    cbn [blocks selectedBlockId grabbedBlockId handPresent cursorPosition gesture
         rotation particles cameraPan].
    f_equal. rewrite <- (map_id bs) at 2. apply map_ext_in. intros b Hb.
    destruct (String.eqb_spec (BlockData.id b) i) as [E|_]; [|reflexivity].
    exfalso. apply H. rewrite <- E. now apply in_map.
Qed.

(** X15.  Of two [updateBlockPosition] calls on the same id the last one
    wins, and calls on different ids commute. *)
Theorem X15_updateBlockPosition_composes i j p q s :
  updateBlockPosition i q None (updateBlockPosition i p None s)
  = updateBlockPosition i q None s /\
  (i <> j ->
   updateBlockPosition i p None (updateBlockPosition j q None s)
   = updateBlockPosition j q None (updateBlockPosition i p None s)).
Proof.
  split.
  - destruct s as [hp cp g r bs ps sel gr pan]. unfold updateBlockPosition.
    cbn [blocks selectedBlockId grabbedBlockId handPresent cursorPosition gesture
         rotation particles cameraPan].
    f_equal. rewrite map_map. apply map_ext. intros b.
    destruct (String.eqb (BlockData.id b) i) eqn:E; cbn; rewrite E; reflexivity.
  - intros Hij. destruct s as [hp cp g r bs ps sel gr pan]. unfold updateBlockPosition.
    cbn [blocks selectedBlockId grabbedBlockId handPresent cursorPosition gesture
         rotation particles cameraPan].
    f_equal. rewrite !map_map. apply map_ext. intros b.
    destruct (String.eqb (BlockData.id b) i) eqn:Ei;
      destruct (String.eqb (BlockData.id b) j) eqn:Ej; cbn; rewrite ?Ei, ?Ej;
      try reflexivity.
    apply String.eqb_eq in Ei. apply String.eqb_eq in Ej. congruence.
Qed.

(** X16.  [clearParticles] drops every particle carrying the id and keeps
    the others in order; it is idempotent, never lengthens the collection,
    and on an id that no particle carries it leaves the store as it is. *)
Theorem X16_clearParticles_behaviour i s :
  (forall p, In p (particles (clearParticles i s)) <->
             In p (particles s) /\ ParticleData.id p <> i) /\
  clearParticles i (clearParticles i s) = clearParticles i s /\
  (List.length (particles (clearParticles i s)) <= List.length (particles s))%nat /\
  (~ In i (map ParticleData.id (particles s)) -> clearParticles i s = s).
Proof.
  split; [|split; [|split]].
  - intros p. cbn. rewrite filter_In. split; intros [H1 H2]; (split; [exact H1|]).
    + intros E. rewrite E, String.eqb_refl in H2. discriminate H2.
    + destruct (String.eqb_spec (ParticleData.id p) i); [contradiction|reflexivity].
  - destruct s as [hp cp g r bs ps sel gr pan]. unfold clearParticles.
    cbn [blocks selectedBlockId grabbedBlockId handPresent cursorPosition gesture
         rotation particles cameraPan].
    f_equal. apply filter_keeps_all. intros x Hx. apply filter_In in Hx. apply Hx.
  - cbn. apply filter_length_le.
  - intros H. destruct s as [hp cp g r bs ps sel gr pan]. unfold clearParticles.
    cbn [blocks selectedBlockId grabbedBlockId handPresent cursorPosition gesture
         rotation particles cameraPan] in *.
    f_equal. apply filter_keeps_all. intros x Hx.
    destruct (String.eqb_spec (ParticleData.id x) i) as [E|_]; [|reflexivity].
    exfalso. apply H. rewrite <- E. now apply in_map.
Qed.

(** ** More on the code: the hand tracker and the cursor overlay *)

(** The store and the refs after a video frame that shows a hand. *)
Lemma predictWebcam_hand env results lm rest w :
  landmarks results = lm :: rest ->
  let w' := snd (predictWebcam env results w) in
  let waving := calculateWave (waveHistory (snd (pushWaveHistory (palmXOf lm) w))) in
  let pinching :=
    Qltb (mathHypot env (fst (lm 8%nat) - fst (lm 4%nat))
                        (snd (lm 8%nat) - snd (lm 4%nat))) 0.05 in
  let native := match gestures results with g :: _ => g | [] => "None" end in
  handPresent (store w') = true /\
  cursorPosition (store w') = ((1 - palmXOf lm) * 2 - 1, - (palmYOf lm * 2 - 1)) /\
  gesture (store w') =
    (if waving then WAVE
     else if pinching then PINCH
     else if String.eqb native "Closed_Fist" then FIST
     else if String.eqb native "Thumb_Up" then THUMBS_UP
     else OPEN_PALM) /\
  cameraPan (store w') =
    (if waving then cameraPan (store w) + (lastWaveX w - palmXOf lm) * 5
     else cameraPan (store w)) /\
  lastWaveX w' = palmXOf lm.
Proof.
  intros H. cbv zeta. unfold predictWebcam, palmXOf, palmYOf. rewrite H.
  cbn -[Nat.ltb calculateWave Qdiv Qplus Qmult Qminus Qopp].
  match goal with
  | |- context [calculateWave ?h] => destruct (calculateWave h) eqn:Ew
  end; cbn -[Nat.ltb calculateWave Qdiv Qplus Qmult Qminus Qopp].
  - repeat split.
  - repeat (match goal with
            | |- context [if ?b then _ else _] => destruct b
            end; cbn -[Nat.ltb calculateWave Qdiv Qplus Qmult Qminus Qopp]);
      repeat split.
Qed.

(** X17.  For a video frame that shows a hand the tracker sets
    [handPresent] and never reports NONE or POINTING_UP; unless the wave
    detector fires, a pinch (fingertips closer than 0.05) is reported as
    PINCH whatever category the recognizer names, a closed fist included,
    and a category it does not know counts as OPEN_PALM. *)
Theorem X17_gesture_resolution env results lm rest w :
  landmarks results = lm :: rest ->
  let w' := snd (predictWebcam env results w) in
  handPresent (store w') = true /\
  gesture (store w') <> NONE /\
  gesture (store w') <> POINTING_UP /\
  (gesture (store w') <> WAVE ->
   mathHypot env (fst (lm 8%nat) - fst (lm 4%nat)) (snd (lm 8%nat) - snd (lm 4%nat)) < 0.05 ->
   gesture (store w') = PINCH) /\
  (gesture (store w') <> WAVE -> gesture (store w') <> PINCH ->
   hd "None" (gestures results) <> "Closed_Fist" ->
   hd "None" (gestures results) <> "Thumb_Up" ->
   gesture (store w') = OPEN_PALM).
Proof.
  intros H w'. subst w'.
  destruct (predictWebcam_hand env results lm rest w H) as (Hp & _ & Hg & _).
  cbv zeta in Hg. rewrite Hg. split; [exact Hp|].
  assert (Hn : match gestures results with g :: _ => g | [] => "None" end
               = hd "None" (gestures results)) by (destruct (gestures results); reflexivity).
  rewrite Hn. clear Hg Hn.
  destruct (calculateWave _).
  { repeat split; try discriminate; intros; contradiction. }
  destruct (Qltb _ 0.05) eqn:Epinch.
  { repeat split; try discriminate; intros; try contradiction; reflexivity. }
  destruct (String.eqb_spec (hd "None" (gestures results)) "Closed_Fist").
  { repeat split; try discriminate; intros; try contradiction.
    match goal with L : _ < 0.05 |- _ => apply Qltb_lt in L; congruence end. }
  destruct (String.eqb_spec (hd "None" (gestures results)) "Thumb_Up").
  { repeat split; try discriminate; intros; try contradiction.
    match goal with L : _ < 0.05 |- _ => apply Qltb_lt in L; congruence end. }
  repeat split; try discriminate; intros.
  match goal with L : _ < 0.05 |- _ => apply Qltb_lt in L; congruence end.
Qed.

Lemma X17_witness :
  gesture (store (snd (predictWebcam sampleEnv (sees pinchingHand "Closed_Fist")
                         wSelected))) = PINCH.
Proof.
  refine (proj1 (proj2 (proj2 (proj2
            (X17_gesture_resolution sampleEnv (sees pinchingHand "Closed_Fist")
               pinchingHand [] wSelected eq_refl)))) _ _).
  - vm_compute. discriminate.
  - vm_compute. reflexivity.
Defined.

(** X18.  A video frame without a hand writes [handPresent = false],
    gesture NONE, cursor (0, 0) and rotation 0, and leaves the wave history,
    the last palm position, the camera pan, the blocks and, for the moment,
    the pointers; the next frame of the interaction loop then clears the
    selection and the grab.  The wave history is not reset by losing the
    hand. *)
Theorem X18_hand_lost env results ray w :
  landmarks results = [] ->
  let w1 := snd (predictWebcam env results w) in
  let w2 := snd (useFrame env (render (store w1)) ray w1) in
  store w1 = setHandState false 0 0 NONE 0 (store w) /\
  waveHistory w1 = waveHistory w /\ lastWaveX w1 = lastWaveX w /\
  selectedBlockId (store w2) = None /\ grabbedBlockId (store w2) = None /\
  blocks (store w2) = blocks (store w) /\
  waveHistory w2 = waveHistory w.
Proof.
  intros H w1 w2.
  assert (E : predictWebcam env results w =
              perform env (SetHandState false 0 0 NONE 0) w)
    by (unfold predictWebcam; now rewrite H).
  assert (E1 : store w1 = setHandState false 0 0 NONE 0 (store w))
    by (subst w1; rewrite E; reflexivity).
  split; [exact E1|].
  split; [subst w1; rewrite E; reflexivity|].
  split; [subst w1; rewrite E; reflexivity|].
  assert (Hp : c_handPresent (render (store w1)) = false) by (rewrite E1; reflexivity).
  subst w2. rewrite (useFrame_absent env _ ray w1 Hp). cbn [snd store waveHistory].
  repeat split.
  - rewrite E1. reflexivity.
  - subst w1. rewrite E. reflexivity.
Qed.

Lemma X18_witness :
  grabbedBlockId
    (store (snd (useFrame sampleEnv
                   (render (store (snd (predictWebcam sampleEnv (mkResults [] []) wGrabbed))))
                   rayNear
                   (snd (predictWebcam sampleEnv (mkResults [] []) wGrabbed))))) = None.
Proof.
  exact (proj1 (proj2 (proj2 (proj2 (proj2
           (X18_hand_lost sampleEnv (mkResults [] []) rayNear wGrabbed eq_refl)))))).
Defined.



(** The pan and the last palm position after a video frame reported as
    WAVE. *)
Lemma predictWebcam_wave_pan env r w :
  gesture (store (snd (predictWebcam env r w))) = WAVE ->
  cameraPan (store (snd (predictWebcam env r w)))
  = cameraPan (store w) + (lastWaveX w - lastWaveX (snd (predictWebcam env r w))) * 5.
Proof.
  intros Hw. destruct (landmarks r) as [|lm rest] eqn:E.
  - exfalso. unfold predictWebcam in Hw. rewrite E in Hw. discriminate Hw.
  - destruct (predictWebcam_hand env r lm rest w E) as (_ & _ & Hg & Hpan & Hlast).
    cbv zeta in Hg, Hpan. rewrite Hlast, Hpan. rewrite Hg in Hw.
    destruct (calculateWave _); [reflexivity|].
    repeat (match type of Hw with
            | (if ?b then _ else _) = _ => destruct b
            end); discriminate Hw.
Qed.



(** ** More on the code: the camera controller *)

Lemma cameraFrames_gap n : forall pan t,
  pan - cameraFrames n pan t == (pan - t) * 0.9 ^ Z.of_nat n.
Proof.
  induction n as [|n IH]; intros pan t.
  - cbn. ring.
  - cbn [cameraFrames]. rewrite IH. cbn [cameraFrame fst].
    rewrite Nat2Z.inj_succ, <- Z.add_1_r.
    rewrite Qpower_plus by discriminate. ring.
Qed.


(** ** More on the code: the animation of the particles *)

Lemma setMatrices_spec env data t : forall vs acc w,
  store (snd (setMatrices env vs data t acc w)) = store w /\
  trace (snd (setMatrices env vs data t acc w)) = trace w /\
  exists ms,
    fst (setMatrices env vs data t acc w) = (acc ++ ms)%list /\
    Forall2 (fun v m =>
               t_position m =
                 (vx (ParticleData.position data) + vx v * t * 20,
                  vy (ParticleData.position data) + vy v * t * 20,
                  vz (ParticleData.position data) + vz v * t * 20) /\
               t_scale m = (Qmax 0 (1 - t) * 0.2, Qmax 0 (1 - t) * 0.2,
                            Qmax 0 (1 - t) * 0.2))
            vs ms.
Proof.
  induction vs as [|v vs IH]; intros acc w.
  - cbn. repeat split. exists []. split; [now rewrite app_nil_r|constructor].
  - unfold setMatrices; fold (setMatrices env). unfold bind, random.
    match goal with
    | |- context [setMatrices env vs data t ?a ?w0] =>
        destruct (IH a w0) as (Hs & Ht & ms & Hm & Hall)
    end.
    rewrite Hs, Ht, Hm. repeat split.
    eexists. split; [rewrite <- app_assoc; reflexivity|].
    constructor; [split; reflexivity|exact Hall].
Qed.

Lemma particlesUseFrame_alive env vs data w :
  Qltb 2 (inject_Z (dateNow env (clockCalls w) - ParticleData.createdAt data) / 1000)
  = false ->
  particlesUseFrame env true vs data w =
  setMatrices env vs data
    (inject_Z (dateNow env (clockCalls w) - ParticleData.createdAt data) / 1000) []
    (snd (now env w)).
Proof.
  intros H. unfold particlesUseFrame, bind. cbn [negb now fst snd]. rewrite H.
  reflexivity.
Qed.

(** X22.  The animation loop of a particle writes nothing to the store: the
    whole callback changes the store and the trace exactly as its age check
    alone does, and it writes one matrix per instance while the particle is
    mounted and not older than 2 s, none otherwise. *)
Theorem X22_particles_callback_footprint env mounted vs data w :
  let r := particlesUseFrame env mounted vs data w in
  let expired :=
    Qltb 2 (inject_Z (dateNow env (clockCalls w) - ParticleData.createdAt data) / 1000) in
  store (snd r) = store (snd (particlesFrame env mounted data w)) /\
  trace (snd r) = trace (snd (particlesFrame env mounted data w)) /\
  List.length (fst r) = if mounted && negb expired then List.length vs else 0%nat.
Proof.
  cbv zeta. destruct mounted; [|repeat split].
  destruct (Qltb 2 _) eqn:E.
  - unfold particlesUseFrame, particlesFrame, bind. cbn [negb now fst snd].
    rewrite E. repeat split.
  - rewrite (particlesUseFrame_alive env vs data w E).
    destruct (setMatrices_spec env data
                (inject_Z (dateNow env (clockCalls w) - ParticleData.createdAt data) / 1000)
                vs [] (snd (now env w))) as (Hs & Ht & ms & Hm & Hall).
    rewrite Hs, Ht, Hm. unfold particlesFrame, bind. cbn [negb now fst snd].
    rewrite E. repeat split.
    cbn [app andb negb]. symmetry. eapply Forall2_length. exact Hall.
Qed.

(** X23.  A mounted particle between 1 s and 2 s old is still animated (one
    matrix per instance) but at scale 0 on every axis: particles fade out
    in their first second and stay in the store, invisible, for the
    second. *)
Theorem X23_particles_invisible_after_one_second env vs data w :
  (1000 <= dateNow env (clockCalls w) - ParticleData.createdAt data <= 2000)%Z ->
  let ms := fst (particlesUseFrame env true vs data w) in
  List.length ms = List.length vs /\
  forall m, In m ms ->
    vx (t_scale m) == 0 /\ vy (t_scale m) == 0 /\ vz (t_scale m) == 0.
Proof.
  intros Hage ms. subst ms.
  set (z := (dateNow env (clockCalls w) - ParticleData.createdAt data)%Z) in *.
  assert (E : Qltb 2 (inject_Z z / 1000) = false).
  { destruct (Qltb 2 _) eqn:E; [|reflexivity]. apply age_test in E. lia. }
  rewrite (particlesUseFrame_alive env vs data w E). fold z.
  destruct (setMatrices_spec env data (inject_Z z / 1000) vs [] (snd (now env w)))
    as (_ & _ & ms & Hm & Hall).
  rewrite Hm. cbn [app]. split; [symmetry; eapply Forall2_length; exact Hall|].
  assert (Hz : Qmax 0 (1 - inject_Z z / 1000) == 0).
  { assert (H1 : 1 <= inject_Z z / 1000)
      by (unfold Qle, Qdiv, Qmult, Qinv, inject_Z; cbn; lia).
    apply Q.max_l. lra. }
  intros m Hin.
  assert (Hsc : t_scale m = (Qmax 0 (1 - inject_Z z / 1000) * 0.2,
                             Qmax 0 (1 - inject_Z z / 1000) * 0.2,
                             Qmax 0 (1 - inject_Z z / 1000) * 0.2)).
  { clear -Hall Hin. induction Hall as [|v m' vs' ms' [_ Hs] _ IH]; [contradiction|].
    destruct Hin as [<-|Hin]; [exact Hs|now apply IH]. }
  rewrite Hsc. unfold vx, vy, vz. cbn [fst snd].
  repeat split; rewrite Hz; ring.
Qed.

Lemma X23_witness :
  List.length (fst (particlesUseFrame sampleEnv true [(0.05, 0, -0.1)] particleB
                      wTwoParticles)) = 1%nat.
Proof.
  refine (proj1 (X23_particles_invisible_after_one_second sampleEnv [(0.05, 0, -0.1)]
                   particleB wTwoParticles _)).
  vm_compute. split; discriminate.
Defined.

Lemma pushVelocities_spec env n : forall acc w,
  store (snd (pushVelocities env n acc w)) = store w /\
  randomCalls (snd (pushVelocities env n acc w)) = (3 * n + randomCalls w)%nat /\
  exists vs,
    fst (pushVelocities env n acc w) = (acc ++ vs)%list /\
    List.length vs = n /\
    forall v, In v vs ->
      exists k1 k2 k3 : nat,
        v = ((mathRandom env k1 - 0.5) * 0.2, (mathRandom env k2 - 0.5) * 0.2,
             (mathRandom env k3 - 0.5) * 0.2).
Proof.
  induction n as [|n IH]; intros acc w.
  - cbn. repeat split. exists []. rewrite app_nil_r. repeat split. intros v [].
  - unfold pushVelocities; fold (pushVelocities env). unfold bind, random.
    match goal with
    | |- context [pushVelocities env n ?a ?w0] =>
        destruct (IH a w0) as (Hs & Hr & vs & Hv & Hlen & Hall)
    end.
    rewrite Hs, Hr, Hv. cbn [store randomCalls]. split; [reflexivity|].
    split; [lia|]. eexists. split; [rewrite <- app_assoc; reflexivity|].
    split; [cbn; now rewrite Hlen|].
    intros v [<-|Hin]; [|now apply Hall].
    do 3 eexists. reflexivity.
Qed.

(** X24.  The velocities drawn when a particle is mounted are 30, each
    component in [-0.1, 0.1); drawing them takes 90 calls of [Math.random]
    and leaves the store alone.  ([Math.random] returns numbers in
    [0, 1).) *)
Theorem X24_velocities env w :
  (forall k, 0 <= mathRandom env k /\ mathRandom env k < 1) ->
  List.length (fst (initVelocities env w)) = 30%nat /\
  (forall v, In v (fst (initVelocities env w)) ->
     (-0.1 <= vx v /\ vx v < 0.1) /\ (-0.1 <= vy v /\ vy v < 0.1) /\
     (-0.1 <= vz v /\ vz v < 0.1)) /\
  store (snd (initVelocities env w)) = store w /\
  randomCalls (snd (initVelocities env w)) = (90 + randomCalls w)%nat.
Proof.
  intros Hrand. unfold initVelocities.
  destruct (pushVelocities_spec env particleCount [] w) as (Hs & Hr & vs & Hv & Hlen & Hall).
  rewrite Hv, Hs, Hr. cbn [app]. split; [exact Hlen|]. split; [|split; reflexivity].
  intros v Hin. destruct (Hall v Hin) as (k1 & k2 & k3 & ->).
  unfold vx, vy, vz. cbn [fst snd].
  destruct (Hrand k1), (Hrand k2), (Hrand k3). repeat split; lra.
Qed.

Lemma X24_witness :
  List.length (fst (initVelocities sampleEnv wSelected)) = 30%nat.
Proof.
  exact (proj1 (X24_velocities sampleEnv wSelected sampleRandom_range)).
Defined.

Lemma drift_bound (a v t : Q) :
  -0.1 <= v /\ v <= 0.1 -> 0 <= t -> t <= 2 -> Qabs (a + v * t * 20 - a) <= 4.
Proof.
  intros [Hl Hu] H0 H2.
  assert (Hup : v * t <= 0.1 * t) by (apply Qmult_le_compat_r; assumption).
  assert (Hlo : -0.1 * t <= v * t) by (apply Qmult_le_compat_r; assumption).
  set (p := v * t) in *. apply Qabs_Qle_condition. split; lra.
Qed.



(** ** More on the code: dragging, and what blocks look like *)

(** X26.  The callback of a [FloatingBlock] moves nothing but the grabbed
    block, and only while the gesture is PINCH: a block whose id is not the
    grabbed one, or any block when the gesture is not PINCH, stays in its
    place in the list with all its fields. *)
Theorem X26_only_grabbed_block_moves env mounted data target w k b :
  nth_error (blocks (store w)) k = Some b ->
  grabbedBlockId (store w) <> Some (BlockData.id b) \/ gesture (store w) <> PINCH ->
  nth_error
    (blocks (store (snd (floatingBlockFrame env mounted data
                           (grabbedBlockId (store w)) (gesture (store w)) target w))))
    k = Some b.
Proof.
  intros Hk Hnot. unfold floatingBlockFrame. destruct mounted; cbn; [|exact Hk].
  destruct (id_eqb (grabbedBlockId (store w)) (Some (BlockData.id data))) eqn:Eg;
    cbn; [|exact Hk].
  destruct (gesture_eqb (gesture (store w)) PINCH) eqn:Ep; cbn; [|exact Hk].
  apply id_eqb_eq in Eg. apply gesture_eqb_eq in Ep.
  destruct Hnot as [Hnot|Hnot]; [|contradiction].
  rewrite nth_error_map, Hk. cbn.
  destruct (String.eqb_spec (BlockData.id b) (BlockData.id data)) as [E|_];
    [|reflexivity].
  exfalso. apply Hnot. rewrite Eg. now rewrite E.
Qed.

Lemma X26_witness :
  nth_error
    (blocks (store (snd (floatingBlockFrame sampleEnv true (initialBlock sampleEnv 0)
                           (grabbedBlockId (store wGrabbed)) (gesture (store wGrabbed))
                           (3, 3, 3) wGrabbed))))
    1 = Some (initialBlock sampleEnv 1).
Proof.
  apply (X26_only_grabbed_block_moves sampleEnv true (initialBlock sampleEnv 0)
           (3, 3, 3) wGrabbed 1 (initialBlock sampleEnv 1)).
  - vm_compute. reflexivity.
  - left. vm_compute. discriminate.
Defined.

(** X27.  The store starts with twelve blocks of pairwise different ids,
    each inside the box [-5, 5) x [-3, 3) x [-2, 2) with scale 1, with no
    particle and nothing selected or grabbed.  ([Math.random] returns
    numbers in [0, 1).) *)
Theorem X27_initial_store env :
  (forall k, 0 <= mathRandom env k /\ mathRandom env k < 1) ->
  List.length (blocks (initialState env)) = 12%nat /\
  NoDup (blockIds (initialState env)) /\
  (forall b, In b (blocks (initialState env)) ->
     (-5 <= vx (BlockData.position b) /\ vx (BlockData.position b) < 5) /\
     (-3 <= vy (BlockData.position b) /\ vy (BlockData.position b) < 3) /\
     (-2 <= vz (BlockData.position b) /\ vz (BlockData.position b) < 2) /\
     BlockData.scale b = (1, 1, 1)) /\
  particles (initialState env) = [] /\
  selectedBlockId (initialState env) = None /\
  grabbedBlockId (initialState env) = None.
Proof.
  intros Hrand. split; [reflexivity|]. split; [|split; [|repeat split]].
  - unfold blockIds. cbn [initialState blocks]. rewrite map_map.
    cbn [initialBlock BlockData.id]. vm_compute.
    repeat (constructor; [cbn; intuition discriminate|]). constructor.
  - intros b Hb. cbn [initialState blocks] in Hb. apply in_map_iff in Hb.
    destruct Hb as (i & <- & _). unfold initialBlock, vx, vy, vz.
    cbn [BlockData.position BlockData.scale fst snd].
    destruct (Hrand (5 * i + 0)%nat), (Hrand (5 * i + 1)%nat), (Hrand (5 * i + 2)%nat).
    repeat split; lra.
Qed.

Lemma X27_witness : NoDup (blockIds (initialState sampleEnv)).
Proof.
  exact (proj1 (proj2 (X27_initial_store sampleEnv sampleRandom_range))).
Defined.

Lemma predictWebcam_blocks env results w :
  blocks (store (snd (predictWebcam env results w))) = blocks (store w).
Proof.
  unfold predictWebcam. destruct (landmarks results) as [|lm rest]; [reflexivity|].
  cbn -[Nat.ltb calculateWave Qdiv Qplus Qmult Qminus Qopp].
  repeat (match goal with
          | |- context [if ?b then _ else _] => destruct b
          end; cbn -[Nat.ltb calculateWave Qdiv Qplus Qmult Qminus Qopp]); reflexivity.
Qed.

Lemma step_blocks_look env (P : string -> Vec3 -> Prop) w w' :
  step env w w' ->
  (forall b, In b (blocks (store w)) -> P (BlockData.color b) (BlockData.scale b)) ->
  forall b, In b (blocks (store w')) -> P (BlockData.color b) (BlockData.scale b).
Proof.
  intros Hstep H b Hb.
  destruct Hstep as [c ray w Hc | mounted data target w _ | mounted data w _ | results w].
  - apply useFrame_blocks_origin in Hb. destruct Hb as [Hb|(src & Hsrc & ->)].
    + now apply H.
    + rewrite Hc in Hsrc. exact (H src Hsrc).
  - unfold floatingBlockFrame in Hb. destruct mounted; cbn in Hb; [|now apply H].
    destruct (_ && _); cbn in Hb; [|now apply H].
    apply in_map_iff in Hb. destruct Hb as (x & <- & Hx).
    destruct (String.eqb (BlockData.id x) (BlockData.id data)); exact (H x Hx).
  - rewrite particlesFrame_store in Hb. destruct (_ && _); now apply H.
  - rewrite predictWebcam_blocks in Hb. now apply H.
Qed.

(** X28.  Nothing in the program resizes or recolours a block: in every
    world it reaches each block has scale 1 on every axis and one of the
    three colours of the initial blocks, copies included. *)
Theorem X28_blocks_keep_their_look env w b :
  reachable env w -> In b (blocks (store w)) ->
  BlockData.scale b = (1, 1, 1) /\
  (BlockData.color b = "#60a5fa" \/ BlockData.color b = "#c084fc" \/
   BlockData.color b = "#f472b6").
Proof.
  intros Hr. revert b. induction Hr as [|w w' _ IH Hstep].
  - intros b Hb. cbn [initialWorld store initialState blocks] in Hb.
    apply in_map_iff in Hb. destruct Hb as (i & <- & _).
    unfold initialBlock. cbn [BlockData.scale BlockData.color].
    split; [reflexivity|].
    destruct (i mod 2 =? 0)%nat; [now left|].
    destruct (i mod 3 =? 0)%nat; [right; now left|right; now right].
  - exact (step_blocks_look env
             (fun col sc => sc = (1, 1, 1) /\
                (col = "#60a5fa" \/ col = "#c084fc" \/ col = "#f472b6"))
             w w' Hstep IH).
Qed.

Lemma X28_witness :
  BlockData.scale (last (blocks (store wThumbOnCopy)) copyOfBlock0) = (1, 1, 1).
Proof.
  refine (proj1 (X28_blocks_keep_their_look sampleEnv wThumbOnCopy _
                   wThumbOnCopy_reachable _)).
  vm_compute. do 12 right. left. reflexivity.
Defined.
